(** * Smart Traffic Sentinel dashboard: the feed client and the lane views

    A shallow embedding of the non-presentational code of the front end:

    - [src/frontend/src/hooks/useSocket.ts]: the [useSocket] hook, that is the
      reconnecting WebSocket client and its cached snapshot;
    - [src/frontend/src/app/page.tsx]: the [Home] component, that is the
      per-lane props handed to [VideoCard] and the global alert overlay.

    The hook stores whatever [JSON.parse] returns, so the embedding works on
    run-time JavaScript values; the TypeScript interface [SocketData] is a
    predicate on those values. *)

From Stdlib Require Import List String Ascii ZArith Bool Lia Permutation.
From Stdlib Require Import DecimalString.
From Stdlib Require DecimalFacts DecimalN DecimalZ DecimalPos.
Import ListNotations.
Local Open Scope string_scope.
Local Open Scope Z_scope.

(** ** Run-time values *)

Module Js.

(** The values the program handles: what [JSON.parse] can return, and
    [undefined], which property reads produce.  A number is kept as the
    decimal [m * 10^e] of its literal, and every operation that reads it
    ([truthy], [strict_eq_int]) reads the binary64 number nearest to that
    decimal, [to_double], as [JSON.parse] does; [-0] is [0].  A string is
    its UTF-8 byte sequence.  An object lists its own properties in insertion
    order (JavaScript puts integer-like keys first; nothing here enumerates
    an object, so the place of a property is never observed). *)
Unset Elimination Schemes.
Inductive JsValue : Type :=
| JUndefined
| JNull
| JBool (b : bool)
| JNumber (m e : Z)
| JString (s : string)
| JArray (items : list JsValue)
| JObject (props : list (string * JsValue)).
Set Elimination Schemes.

(** Induction on values, through the arrays and the objects. *)
Section JsValue_induction.

Variable P : JsValue -> Prop.
Hypothesis P_undefined : P JUndefined.
Hypothesis P_null : P JNull.
Hypothesis P_bool : forall b, P (JBool b).
Hypothesis P_number : forall m e, P (JNumber m e).
Hypothesis P_string : forall s, P (JString s).
Hypothesis P_array : forall items, Forall P items -> P (JArray items).
Hypothesis P_object :
  forall props, Forall (fun kv => P (snd kv)) props -> P (JObject props).

Fixpoint JsValue_ind (v : JsValue) : P v :=
  match v with
  | JUndefined => P_undefined
  | JNull => P_null
  | JBool b => P_bool b
  | JNumber m e => P_number m e
  | JString s => P_string s
  | JArray items =>
      P_array items
        ((fix all (l : list JsValue) : Forall P l :=
            match l with
            | [] => Forall_nil P
            | x :: l' => Forall_cons x (JsValue_ind x) (all l')
            end) items)
  | JObject props =>
      P_object props
        ((fix all (l : list (string * JsValue)) : Forall (fun kv => P (snd kv)) l :=
            match l with
            | [] => Forall_nil _
            | kv :: l' => Forall_cons kv (JsValue_ind (snd kv)) (all l')
            end) props)
  end.

End JsValue_induction.

(** A [TypeError] aborts the evaluation; everything else returns. *)
Inductive result (A : Type) : Type :=
| Ok (a : A)
| TypeError.
Arguments Ok {A} a.
Arguments TypeError {A}.

Definition bind {A B} (r : result A) (k : A -> result B) : result B :=
  match r with
  | Ok a => k a
  | TypeError => TypeError
  end.

Notation "x <- r ;; k" := (bind r (fun x => k))
  (at level 61, r at next level, right associativity).

Fixpoint mapM {A B} (f : A -> result B) (l : list A) : result (list B) :=
  match l with
  | [] => Ok []
  | a :: l' => b <- f a ;; bs <- mapM f l' ;; Ok (b :: bs)
  end.

(** Own-property lookup: the first entry with that key. *)
Fixpoint lookup (k : string) (props : list (string * JsValue)) : option JsValue :=
  match props with
  | [] => None
  | (k', v) :: rest => if String.eqb k k' then Some v else lookup k rest
  end.

Definition keys (props : list (string * JsValue)) : list string := map fst props.

(** [o[k] = v] on an object: overwrite in place, or append a new property. *)
Fixpoint obj_set (k : string) (v : JsValue) (props : list (string * JsValue))
  : list (string * JsValue) :=
  match props with
  | [] => [(k, v)]
  | (k', v') :: rest =>
      if String.eqb k k' then (k', v) :: rest else (k', v') :: obj_set k v rest
  end.

Definition nullish (v : JsValue) : bool :=
  match v with
  | JUndefined | JNull => true
  | _ => false
  end.

(** [v[k]] and [v.k], for the property names this program reads
    ([signals], [emergency], [detections], [is_active], [lane_id] and the
    lane keys): none of them is a property of a built-in prototype, of a
    string or of an array, so only an object's own properties can answer. *)
Definition get (v : JsValue) (k : string) : result JsValue :=
  match v with
  | JUndefined | JNull => TypeError
  | JObject props =>
      match lookup k props with
      | Some x => Ok x
      | None => Ok JUndefined
      end
  | _ => Ok JUndefined
  end.

(** A binary64 number: [q * 2^k], or an infinity.  [JSON.parse] returns
    no NaN. *)
Inductive Double : Type :=
| finite (q k : Z)
| infinite (negative : bool).

(** [n / d] rounded to the nearest integer, a tie to the even one, for
    [0 <= n] and [0 < d]. *)
Definition round_half_even (n d : Z) : Z :=
  let q := n / d in
  let r := n mod d in
  if 2 * r <? d then q
  else if d <? 2 * r then q + 1
  else if Z.even q then q else q + 1.

(** The binary64 number nearest to the decimal [m * 10^e], a tie to the even
    significand: 53 bits of significand, exponents down to [-1074] (the
    subnormal numbers) and an infinity from [2^1024] on. *)
Definition to_double (m e : Z) : Double :=
  if m =? 0 then finite 0 0
  else
    let a := Z.abs m in
    let n := if 0 <=? e then a * 10 ^ e else a in
    let d := if 0 <=? e then 1 else 10 ^ (- e) in
    let l := Z.log2 n - Z.log2 d in
    let above := if 0 <=? l then d * 2 ^ l <=? n else d <=? n * 2 ^ (- l) in
    let fl := if above then l else l - 1 in
    let k := Z.max (fl - 52) (-1074) in
    let q := if 0 <=? k then round_half_even n (d * 2 ^ k)
             else round_half_even (n * 2 ^ (- k)) d in
    if (971 <? k) || ((k =? 971) && (q =? 2 ^ 53)) then infinite (m <? 0)
    else finite (if m <? 0 then - q else q) k.

(** ToBoolean. *)
Definition truthy (v : JsValue) : bool :=
  match v with
  | JUndefined | JNull => false
  | JBool b => b
  | JNumber m e =>
      match to_double m e with
      | finite q _ => negb (q =? 0)
      | infinite _ => true
      end
  | JString s => negb (String.eqb s "")
  | JArray _ | JObject _ => true
  end.

(** [a || b], with [b] already evaluated (here always a literal). *)
Definition or_else (a b : JsValue) : JsValue := if truthy a then a else b.

(** [v === n] for an integer-valued number [n] (one that binary64 holds
    exactly, as every number of the program is). *)
Definition strict_eq_int (v : JsValue) (n : Z) : bool :=
  match v with
  | JNumber m e =>
      match to_double m e with
      | finite q k => if 0 <=? k then q * 2 ^ k =? n else q =? n * 2 ^ (- k)
      | infinite _ => false
      end
  | _ => false
  end.

(** The template literal [`${n}`] for an integer-valued number [n] (for
    [|n| < 10^21]; larger numbers print in exponent form). *)
Definition number_to_string (n : Z) : string := NilZero.string_of_int (Z.to_int n).

End Js.
Import Js.

(** ** [Home]: the lane cards and the alert overlay (page.tsx) *)

Module Page.

(** The props of one [VideoCard] that carry feed state.  [videoUrl] and
    [key], which depend on the lane id only, are left out. *)
Record LaneView : Type := mkLaneView {
  laneId : Z;
  signalState : JsValue;
  isEmergency : bool;
  detections : JsValue
}.

(** [const lanes = [1, 2, 3, 4]] *)
Definition lanes : list Z := [1; 2; 3; 4].

(** [`lane${laneId}`] *)
Definition laneKey (laneId : Z) : string := "lane" ++ number_to_string laneId.

(** [data?.signals[laneKey] || 'RED'] *)
Definition lane_signalState (data : JsValue) (key : string) : result JsValue :=
  if nullish data then Ok (JString "RED")
  else
    signals <- get data "signals" ;;
    s <- get signals key ;;
    Ok (or_else s (JString "RED")).

(** [!!(data?.emergency.is_active && data.emergency.lane_id === laneId)] *)
Definition lane_isEmergency (data : JsValue) (id : Z) : result bool :=
  if nullish data then Ok false
  else
    emergency <- get data "emergency" ;;
    is_active <- get emergency "is_active" ;;
    if truthy is_active then
      emergency' <- get data "emergency" ;;
      lane_id <- get emergency' "lane_id" ;;
      Ok (strict_eq_int lane_id id)
    else Ok false.

(** [data?.detections?.[laneKey] || []] *)
Definition lane_detections (data : JsValue) (key : string) : result JsValue :=
  if nullish data then Ok (JArray [])
  else
    dets <- get data "detections" ;;
    if nullish dets then Ok (JArray [])
    else
      d <- get dets key ;;
      Ok (or_else d (JArray [])).

(** The body of the callback of [lanes.map]. *)
Definition lane_view (data : JsValue) (id : Z) : result LaneView :=
  let key := laneKey id in
  s <- lane_signalState data key ;;
  e <- lane_isEmergency data id ;;
  d <- lane_detections data key ;;
  Ok (mkLaneView id s e d).

(** [lanes.map((laneId) => ...)], for any list of lane ids. *)
Definition derive (data : JsValue) (laneIds : list Z) : result (list LaneView) :=
  mapM (lane_view data) laneIds.

(** The global alert overlay as the body of [Home] builds it,
    [data?.emergency.is_active && (...)]: no overlay element ([None], the
    expression is then the falsy [is_active] itself) or the overlay element
    with [data.emergency.lane_id] as the child that names the lane.  The
    child is passed as it is, unchecked; React turns it into text when it
    renders the element, which is past the body of [Home] (it refuses a
    child that is an object). *)
Definition banner (data : JsValue) : result (option JsValue) :=
  if nullish data then Ok None
  else
    emergency <- get data "emergency" ;;
    is_active <- get emergency "is_active" ;;
    if truthy is_active then
      emergency' <- get data "emergency" ;;
      lane_id <- get emergency' "lane_id" ;;
      Ok (Some lane_id)
    else Ok None.

(** The part of the element [Home] returns that depends on the feed: the
    text of the status pill, the props of the cards and the overlay (in the
    order of the JSX: header, grid, overlay).  [Home] stops there: the body
    of each [VideoCard] and the children of the elements are rendered by
    React afterwards, from these props. *)
Record Rendered : Type := mkRendered {
  statusText : string;
  cards : list LaneView;
  overlay : option JsValue
}.

Definition Home (data : JsValue) (isConnected : bool) : result Rendered :=
  let status := if isConnected then "ONLINE" else "OFFLINE" in
  views <- derive data lanes ;;
  alert <- banner data ;;
  Ok (mkRendered status views alert).

End Page.
Import Page.


(** ** [JSON.parse]

    The platform's function, modelled by a parser of the JSON grammar as
    ECMAScript takes it from ECMA-404: white space, one value, white space. *)

Module Json.

Local Open Scope char_scope.

(** The double quote. *)
Definition dquote : ascii := "034".

(** The outcome of a parser on a text: a value and the text left, a
    [SyntaxError], or no fuel left for the recursion. *)
Inductive parsed (A : Type) : Type :=
| Parsed (a : A) (rest : string)
| SyntaxError
| OutOfFuel.
Arguments Parsed {A} a rest.
Arguments SyntaxError {A}.
Arguments OutOfFuel {A}.

Definition andThen {A B} (p : parsed A) (k : A -> string -> parsed B) : parsed B :=
  match p with
  | Parsed a rest => k a rest
  | SyntaxError => SyntaxError
  | OutOfFuel => OutOfFuel
  end.

(** *** Lexical pieces *)

Definition is_ws (c : ascii) : bool :=
  Ascii.eqb c " " || Ascii.eqb c "009" || Ascii.eqb c "010" || Ascii.eqb c "013".

Fixpoint skip_ws (s : string) : string :=
  match s with
  | String c rest => if is_ws c then skip_ws rest else s
  | EmptyString => s
  end.

Definition is_digit (c : ascii) : bool :=
  (48 <=? N_of_ascii c)%N && (N_of_ascii c <=? 57)%N.

(** The longest prefix of digits, and what follows it. *)
Fixpoint span_digits (s : string) : string * string :=
  match s with
  | String c rest =>
      if is_digit c then let (ds, r) := span_digits rest in (String c ds, r)
      else (EmptyString, s)
  | EmptyString => (EmptyString, EmptyString)
  end.

Definition digits_value (ds : string) : Z :=
  match NilEmpty.uint_of_string ds with
  | Some u => Z.of_uint u
  | None => 0
  end.

(** [int]: a single [0], or digits that do not start with [0]. *)
Definition int_ok (ds : string) : bool :=
  match ds with
  | EmptyString => false
  | String c EmptyString => true
  | String c _ => negb (Ascii.eqb c "0")
  end.

Definition is_empty (s : string) : bool :=
  match s with
  | EmptyString => true
  | _ => false
  end.

(** [number = [-] int [. digits] [(e|E) [+|-] digits]].  The literal is
    kept as its decimal: the digits of [int] and of the fraction are the
    mantissa, and the exponent is lowered by the length of the fraction.
    The number [JSON.parse] returns for it is the binary64 number
    [to_double] gives for that decimal, which is what [truthy] and
    [strict_eq_int] read. *)
Definition parse_number (s : string) : parsed JsValue :=
  let '(neg, s1) :=
    match s with
    | String c r => if Ascii.eqb c "-" then (true, r) else (false, s)
    | EmptyString => (false, s)
    end in
  let '(int, s2) := span_digits s1 in
  if negb (int_ok int) then SyntaxError
  else
    let '(frac_ok, frac, s3) :=
      match s2 with
      | String c r =>
          if Ascii.eqb c "." then
            let '(fd, r') := span_digits r in (negb (is_empty fd), fd, r')
          else (true, EmptyString, s2)
      | EmptyString => (true, EmptyString, s2)
      end in
    if negb frac_ok then SyntaxError
    else
      let '(exp_ok, exp, s4) :=
        match s3 with
        | String c r =>
            if Ascii.eqb c "e" || Ascii.eqb c "E" then
              let '(eneg, r1) :=
                match r with
                | String c' r' =>
                    if Ascii.eqb c' "-" then (true, r')
                    else if Ascii.eqb c' "+" then (false, r')
                    else (false, r)
                | EmptyString => (false, r)
                end in
              let '(ed, r2) := span_digits r1 in
              (negb (is_empty ed),
               if eneg then - digits_value ed else digits_value ed, r2)
            else (true, 0%Z, s3)
        | EmptyString => (true, 0%Z, s3)
        end in
      if negb exp_ok then SyntaxError
      else
        let m := digits_value (int ++ frac) in
        Parsed (JNumber (if neg then - m else m)
                        (exp - Z.of_nat (String.length frac))) s4.

Definition hex_value (c : ascii) : option N :=
  let n := N_of_ascii c in
  if (48 <=? n)%N && (n <=? 57)%N then Some (n - 48)%N
  else if (65 <=? n)%N && (n <=? 70)%N then Some (n - 55)%N
  else if (97 <=? n)%N && (n <=? 102)%N then Some (n - 87)%N
  else None.

Definition hex4 (a b c d : ascii) : option N :=
  match hex_value a, hex_value b, hex_value c, hex_value d with
  | Some x, Some y, Some z, Some w => Some (((x * 16 + y) * 16 + z) * 16 + w)%N
  | _, _, _, _ => None
  end.

(** What a string literal is made of: a byte of the text taken as it is, or
    the UTF-16 code unit named by an escape. *)
Inductive item : Type :=
| Raw (c : ascii)
| Esc (cu : N).

(** The characters of a string literal up to its closing quote. *)
Fixpoint string_items (s : string) : parsed (list item) :=
  match s with
  | EmptyString => SyntaxError
  | String c rest =>
      if Ascii.eqb c dquote then Parsed [] rest
      else if Ascii.eqb c "\" then
        match rest with
        | EmptyString => SyntaxError
        | String e rest' =>
            let simple (b : ascii) :=
              andThen (string_items rest') (fun l r => Parsed (Raw b :: l) r) in
            if Ascii.eqb e dquote then simple dquote
            else if Ascii.eqb e "\" then simple "\"
            else if Ascii.eqb e "/" then simple "/"
            else if Ascii.eqb e "b" then simple "008"
            else if Ascii.eqb e "f" then simple "012"
            else if Ascii.eqb e "n" then simple "010"
            else if Ascii.eqb e "r" then simple "013"
            else if Ascii.eqb e "t" then simple "009"
            else if Ascii.eqb e "u" then
              match rest' with
              | String h1 (String h2 (String h3 (String h4 rest''))) =>
                  match hex4 h1 h2 h3 h4 with
                  | Some cu =>
                      andThen (string_items rest'')
                              (fun l r => Parsed (Esc cu :: l) r)
                  | None => SyntaxError
                  end
              | _ => SyntaxError
              end
            else SyntaxError
        end
      else if (N_of_ascii c <? 32)%N then SyntaxError
      else andThen (string_items rest) (fun l r => Parsed (Raw c :: l) r)
  end.

Definition byte (n : N) : string := String (ascii_of_N n) EmptyString.

(** UTF-8 of a code point (a lone surrogate is written like any other code
    point of its range). *)
Definition utf8 (cp : N) : string :=
  (if cp <? 128 then byte cp
   else if cp <? 2048 then byte (192 + cp / 64) ++ byte (128 + cp mod 64)
   else if cp <? 65536 then
     byte (224 + cp / 4096) ++ byte (128 + (cp / 64) mod 64)
     ++ byte (128 + cp mod 64)
   else
     byte (240 + cp / 262144) ++ byte (128 + (cp / 4096) mod 64)
     ++ byte (128 + (cp / 64) mod 64) ++ byte (128 + cp mod 64))%N%string.

Definition is_high_surrogate (cu : N) : bool := ((55296 <=? cu) && (cu <=? 56319))%N.
Definition is_low_surrogate (cu : N) : bool := ((56320 <=? cu) && (cu <=? 57343))%N.

(** The string value: bytes as they are, escaped code units in UTF-8, a high
    surrogate followed by a low one being one code point. *)
Fixpoint string_of_items (l : list item) : string :=
  match l with
  | [] => EmptyString
  | Raw c :: l' => String c (string_of_items l')
  | Esc cu :: l' =>
      match l' with
      | Esc lo :: l'' =>
          if is_high_surrogate cu && is_low_surrogate lo
          then (utf8 (65536 + (cu - 55296) * 1024 + (lo - 56320))%N
                ++ string_of_items l'')%string
          else (utf8 cu ++ string_of_items l')%string
      | _ => (utf8 cu ++ string_of_items l')%string
      end
  end.

(** A string literal, after its opening quote. *)
Definition string_literal (s : string) : parsed string :=
  andThen (string_items s) (fun l r => Parsed (string_of_items l) r).

(** [true], [false] and [null], after their first letter. *)
Fixpoint keyword (word : string) (v : JsValue) (s : string) : parsed JsValue :=
  match word with
  | EmptyString => Parsed v s
  | String w word' =>
      match s with
      | String c rest => if Ascii.eqb c w then keyword word' v rest else SyntaxError
      | EmptyString => SyntaxError
      end
  end.

(** *** Arrays and objects, over the parser of the values they hold *)

Section Containers.

Variable value : string -> parsed JsValue.

(** [value ws (, ws value ws)* ]], the text starting at the first value. *)
Fixpoint elements (n : nat) (s : string) : parsed (list JsValue) :=
  match n with
  | O => OutOfFuel
  | S n' =>
      andThen (value s) (fun v rest =>
        match skip_ws rest with
        | String c rest' =>
            if Ascii.eqb c "," then
              andThen (elements n' (skip_ws rest'))
                      (fun vs r => Parsed (v :: vs) r)
            else if Ascii.eqb c "]" then Parsed [v] rest'
            else SyntaxError
        | EmptyString => SyntaxError
        end)
  end.

(** One member, [string ws : ws value], the text starting at its key. *)
Definition member (s : string) : parsed (string * JsValue) :=
  match s with
  | String q rest =>
      if Ascii.eqb q dquote then
        andThen (string_literal rest) (fun k rest1 =>
          match skip_ws rest1 with
          | String c rest2 =>
              if Ascii.eqb c ":" then
                andThen (value (skip_ws rest2)) (fun v r => Parsed (k, v) r)
              else SyntaxError
          | EmptyString => SyntaxError
          end)
      else SyntaxError
  | EmptyString => SyntaxError
  end.

(** [member ws (, ws member ws)* }], the text starting at the first key. *)
Fixpoint members (n : nat) (s : string) : parsed (list (string * JsValue)) :=
  match n with
  | O => OutOfFuel
  | S n' =>
      andThen (member s) (fun kv rest =>
        match skip_ws rest with
        | String c rest' =>
            if Ascii.eqb c "," then
              andThen (members n' (skip_ws rest'))
                      (fun kvs r => Parsed (kv :: kvs) r)
            else if Ascii.eqb c "}" then Parsed [kv] rest'
            else SyntaxError
        | EmptyString => SyntaxError
        end)
  end.

End Containers.

(** The object built from the members in the order of the text: a key that
    comes again overwrites the earlier value. *)
Definition object_of_members (ms : list (string * JsValue)) : list (string * JsValue) :=
  fold_left (fun o kv => obj_set (fst kv) (snd kv) o) ms [].

(** One value, the text starting at its first character. *)
Fixpoint parse_value (fuel : nat) (s : string) : parsed JsValue :=
  match fuel with
  | O => OutOfFuel
  | S fuel' =>
      match s with
      | EmptyString => SyntaxError
      | String c rest =>
          if Ascii.eqb c "{" then
            match skip_ws rest with
            | EmptyString => SyntaxError
            | String c' rest' =>
                if Ascii.eqb c' "}" then Parsed (JObject []) rest'
                else
                  andThen (members (parse_value fuel') fuel' (String c' rest'))
                          (fun ms r => Parsed (JObject (object_of_members ms)) r)
            end
          else if Ascii.eqb c "[" then
            match skip_ws rest with
            | EmptyString => SyntaxError
            | String c' rest' =>
                if Ascii.eqb c' "]" then Parsed (JArray []) rest'
                else
                  andThen (elements (parse_value fuel') fuel' (String c' rest'))
                          (fun vs r => Parsed (JArray vs) r)
            end
          else if Ascii.eqb c dquote then
            andThen (string_literal rest) (fun k r => Parsed (JString k) r)
          else if Ascii.eqb c "t" then keyword "rue" (JBool true) rest
          else if Ascii.eqb c "f" then keyword "alse" (JBool false) rest
          else if Ascii.eqb c "n" then keyword "ull" JNull rest
          else if Ascii.eqb c "-" || is_digit c then parse_number s
          else SyntaxError
      end
  end.

(** [JSON.parse(text)]: white space, one value, white space, end of text.
    [None] is the [SyntaxError] it throws.  The fuel is more than the text
    can use ([parse_value_fuel] below). *)
Definition JSON_parse (text : string) : option JsValue :=
  match parse_value (S (String.length text)) (skip_ws text) with
  | Parsed v rest => if is_empty (skip_ws rest) then Some v else None
  | _ => None
  end.

(** A parser that leaves less text than it was given. *)
Definition shrinks {A} (p : string -> parsed A) : Prop :=
  forall s a r, p s = Parsed a r -> (String.length r < String.length s)%nat.

(** A parser that has fuel enough for every text shorter than [bound]. *)
Definition fueled {A} (p : string -> parsed A) (bound : nat) : Prop :=
  forall s, (String.length s < bound)%nat -> p s <> OutOfFuel.

End Json.
Import Json.

(** ** A text for every value *)

Module Render.

Local Open Scope char_scope.

(** A hexadecimal digit, in lower case. *)
Definition hex_digit (n : N) : ascii :=
  if (n <? 10)%N then ascii_of_N (48 + n) else ascii_of_N (87 + n).

(** A character inside a string literal: the quote and the backslash are
    escaped, a control character is written [\u00XX]. *)
Definition render_char (c : ascii) : string :=
  if Ascii.eqb c dquote then String "\" (String dquote EmptyString)
  else if Ascii.eqb c "\" then String "\" (String "\" EmptyString)
  else if (N_of_ascii c <? 32)%N then
    String "\" (String "u" (String "0" (String "0"
      (String (hex_digit (N_of_ascii c / 16))
         (String (hex_digit (N_of_ascii c mod 16)) EmptyString)))))
  else String c EmptyString.

Fixpoint render_chars (s : string) : string :=
  match s with
  | EmptyString => EmptyString
  | String c rest => (render_char c ++ render_chars rest)%string
  end.

Definition render_string (s : string) : string :=
  String dquote (render_chars s ++ String dquote EmptyString).

(** The decimal digits of a natural number. *)
Definition render_nat (n : Z) : string := NilEmpty.string_of_uint (N.to_uint (Z.to_N n)).

Definition render_int (z : Z) : string :=
  if (z <? 0)%Z then String "-" (render_nat (- z)%Z) else render_nat z.

(** [m * 10^e] written as mantissa and exponent, such as [92e-2]. *)
Definition render_number (m e : Z) : string :=
  (render_int m ++ String "e" (render_int e))%string.

Fixpoint join_commas (l : list string) : string :=
  match l with
  | [] => EmptyString
  | [x] => x
  | x :: l' => (x ++ String "," (join_commas l'))%string
  end.

(** A JSON text that stands for the value, with no white space.
    [undefined] has no JSON text. *)
Fixpoint render (v : JsValue) : string :=
  match v with
  | JUndefined => "undefined"
  | JNull => "null"
  | JBool true => "true"
  | JBool false => "false"
  | JNumber m e => render_number m e
  | JString s => render_string s
  | JArray items => String "[" (join_commas (map render items) ++ "]")
  | JObject props =>
      String "{"
        (join_commas
           (map (fun kv => match kv with
                           | (k, x) => (render_string k ++ String ":" (render x))%string
                           end) props) ++ "}")
  end.

Fixpoint distinct (l : list string) : bool :=
  match l with
  | [] => true
  | k :: l' => negb (existsb (String.eqb k) l') && distinct l'
  end.

(** The values [JSON.parse] can return: no [undefined] inside, and no
    object with two properties of the same name. *)
Fixpoint is_json (v : JsValue) : bool :=
  match v with
  | JUndefined => false
  | JNull | JBool _ | JNumber _ _ | JString _ => true
  | JArray items => forallb is_json items
  | JObject props =>
      distinct (keys props)
      && forallb (fun kv => match kv with (_, x) => is_json x end) props
  end.

(** The members of an object are JSON values. *)
Definition members_json (kvs : list (string * JsValue)) : bool :=
  forallb (fun kv => match kv with (_, x) => is_json x end) kvs.

(** The number of nodes of a value. *)
Fixpoint size (v : JsValue) : nat :=
  match v with
  | JArray items => S (list_sum (map size items))
  | JObject props =>
      S (list_sum (map (fun kv => match kv with (_, x) => size x end) props))
  | _ => 1%nat
  end.

(** A text at which a number stops: the end, or a character that is no
    digit. *)
Definition stops_number (rest : string) : Prop :=
  match rest with
  | EmptyString => True
  | String c _ => is_digit c = false
  end.

(** The item a character of a string is read back as. *)
Definition item_of (c : ascii) : item :=
  if (N_of_ascii c <? 32)%N then Esc (N_of_ascii c) else Raw c.

Fixpoint items_of (s : string) : list item :=
  match s with
  | EmptyString => []
  | String c rest => item_of c :: items_of rest
  end.

(** The characters a value can start with. *)
Definition value_start (c : ascii) : bool :=
  Ascii.eqb c "{" || Ascii.eqb c "[" || Ascii.eqb c dquote || Ascii.eqb c "t"
  || Ascii.eqb c "f" || Ascii.eqb c "n" || Ascii.eqb c "-" || is_digit c.

(** A parser that reads back the text of [x], whatever follows it. *)
Definition reads (value : string -> parsed JsValue) (x : JsValue) : Prop :=
  forall rest, stops_number rest -> value (render x ++ rest) = Parsed x rest.

(** The text of one member of an object, [key:value]. *)
Definition render_member (kv : string * JsValue) : string :=
  match kv with
  | (k, x) => (render_string k ++ String ":" (render x))%string
  end.

End Render.
Import Render.

(** ** [useSocket]: the reconnecting feed client (useSocket.ts) *)

Module Socket.

(** [WebSocket.readyState] *)
Inductive ReadyState : Type :=
| rs_CONNECTING
| rs_OPEN
| rs_CLOSING
| rs_CLOSED.

Inductive LogEntry : Type :=
| console_log (msg : string)
| console_error (msg : string).

(** The only function ever handed to [setTimeout]. *)
Inductive Callback : Type :=
| cb_connect.

Record Timer : Type := mkTimer {
  callback : Callback;
  delay_ms : Z
}.

(** The cells of the hook ([useState], [useRef]) and the part of the browser
    its effect acts on: the sockets created so far, each known by its rank of
    creation, the pending timeouts, oldest first, and the console. *)
Record HookState : Type := mkHookState {
  data : JsValue;
  isConnected : bool;
  socketRef : option nat;
  sockets : list ReadyState;
  timers : list Timer;
  console : list LogEntry
}.

(** [useState(null)], [useState(false)], [useRef(null)]. *)
Definition initial : HookState :=
  mkHookState JNull false None [] [] [].

Definition setData (v : JsValue) (st : HookState) : HookState :=
  mkHookState v (isConnected st) (socketRef st) (sockets st) (timers st) (console st).

Definition setIsConnected (b : bool) (st : HookState) : HookState :=
  mkHookState (data st) b (socketRef st) (sockets st) (timers st) (console st).

Definition log (e : LogEntry) (st : HookState) : HookState :=
  mkHookState (data st) (isConnected st) (socketRef st) (sockets st) (timers st)
              (console st ++ [e]).

Definition setTimeout (cb : Callback) (ms : Z) (st : HookState) : HookState :=
  mkHookState (data st) (isConnected st) (socketRef st) (sockets st)
              (timers st ++ [mkTimer cb ms]) (console st).

Definition set_sockets (l : list ReadyState) (st : HookState) : HookState :=
  mkHookState (data st) (isConnected st) (socketRef st) l (timers st) (console st).

Fixpoint set_readyState (id : nat) (r : ReadyState) (l : list ReadyState)
  : list ReadyState :=
  match l, id with
  | [], _ => []
  | _ :: l', O => r :: l'
  | x :: l', S id' => x :: set_readyState id' r l'
  end.

(** [connect]: [new WebSocket(url)], kept in [socketRef.current]; the four
    handlers below are attached to it. *)
Definition connect (st : HookState) : HookState :=
  mkHookState (data st) (isConnected st) (Some (List.length (sockets st)))
              (sockets st ++ [rs_CONNECTING]) (timers st) (console st).

(** [socket.onopen] *)
Definition onopen (st : HookState) : HookState :=
  setIsConnected true (log (console_log "Connected to WebSocket") st).

(** [socket.onmessage]: [try { setData(JSON.parse(event.data)) } catch ...],
    for a text frame, [event_data] being its text as on the wire. *)
Definition onmessage (event_data : string) (st : HookState) : HookState :=
  match JSON_parse event_data with
  | Some parsedData => setData parsedData st
  | None => log (console_error "Failed to parse WS message") st
  end.

(** [socket.onclose] *)
Definition onclose (st : HookState) : HookState :=
  setTimeout cb_connect 3000
    (setIsConnected false
       (log (console_log "WebSocket disconnected. Retrying...") st)).

(** [socket.onerror] *)
Definition onerror (st : HookState) : HookState :=
  log (console_error "WebSocket Error") st.

(** [WebSocket.close()]: starts the closing handshake unless the socket is
    closing or closed already. *)
Definition close (id : nat) (st : HookState) : HookState :=
  match nth_error (sockets st) id with
  | Some rs_CONNECTING | Some rs_OPEN =>
      set_sockets (set_readyState id rs_CLOSING (sockets st)) st
  | _ => st
  end.

(** The clean-up of the effect:
    [if (socketRef.current) socketRef.current.close()]. *)
Definition cleanup (st : HookState) : HookState :=
  match socketRef st with
  | Some id => close id st
  | None => st
  end.

(** What can happen to the hook: React runs the effect or its clean-up, the
    browser fires an event of one of the sockets, or the oldest timeout. *)
Inductive Event : Type :=
| EvEffect
| EvCleanup
| EvOpen (id : nat)
| EvMessage (id : nat) (event_data : string)
| EvError (id : nat)
| EvClose (id : nat)
| EvTimeout.

(** The browser fires [open] on a connecting socket, [message] on an open
    one, [close] once on a socket not yet closed. *)
Definition enabled (st : HookState) (ev : Event) : bool :=
  match ev with
  | EvEffect | EvCleanup => true
  | EvOpen id =>
      match nth_error (sockets st) id with
      | Some rs_CONNECTING => true
      | _ => false
      end
  | EvMessage id _ =>
      match nth_error (sockets st) id with
      | Some rs_OPEN => true
      | _ => false
      end
  | EvError id | EvClose id =>
      match nth_error (sockets st) id with
      | Some rs_CLOSED | None => false
      | Some _ => true
      end
  | EvTimeout =>
      match timers st with
      | [] => false
      | _ :: _ => true
      end
  end.

(** The browser updates [readyState], then calls the handler.  The handlers
    are the same closures for every socket and none reads [socket] or
    [socketRef]. *)
Definition deliver (st : HookState) (ev : Event) : HookState :=
  match ev with
  | EvEffect => connect st
  | EvCleanup => cleanup st
  | EvOpen id => onopen (set_sockets (set_readyState id rs_OPEN (sockets st)) st)
  | EvMessage _ event_data => onmessage event_data st
  | EvError _ => onerror st
  | EvClose id => onclose (set_sockets (set_readyState id rs_CLOSED (sockets st)) st)
  | EvTimeout =>
      match timers st with
      | [] => st
      | mkTimer cb_connect _ :: rest =>
          connect (mkHookState (data st) (isConnected st) (socketRef st)
                               (sockets st) rest (console st))
      end
  end.

(** A run from a state: every event must be enabled when it happens. *)
Fixpoint run (st : HookState) (evs : list Event) : option HookState :=
  match evs with
  | [] => Some st
  | ev :: evs' => if enabled st ev then run (deliver st ev) evs' else None
  end.

Definition reachable (st : HookState) : Prop :=
  exists evs, run initial evs = Some st.

(** The three-valued status of the specification, read off the hook: open
    when [isConnected]; otherwise waiting for a reconnect timer if one is
    pending, else waiting for the socket to open. *)
Inductive ConnectionStatus : Type :=
| CONNECTING
| OPEN
| RECONNECTING.

Definition status (st : HookState) : ConnectionStatus :=
  if isConnected st then OPEN
  else match timers st with
       | [] => CONNECTING
       | _ :: _ => RECONNECTING
       end.

End Socket.
Import Socket.

(** ** The interface [SocketData], as a predicate on run-time values *)

Module Types.

(** [v.k] when [v] is an object that has [k], [undefined] otherwise. *)
Definition field (k : string) (v : JsValue) : JsValue :=
  match v with
  | JObject props =>
      match lookup k props with
      | Some x => x
      | None => JUndefined
      end
  | _ => JUndefined
  end.

(** The entries of a map such as [signals] or [detections]. *)
Definition entries (v : JsValue) : list (string * JsValue) :=
  match v with
  | JObject props => props
  | _ => []
  end.

(** ['RED' | 'YELLOW' | 'GREEN'] *)
Definition is_SignalState (v : JsValue) : bool :=
  match v with
  | JString s => String.eqb s "RED" || String.eqb s "YELLOW" || String.eqb s "GREEN"
  | _ => false
  end.

(** [{ is_active: boolean; lane_id: number | null }] *)
Definition is_flag (v : JsValue) : bool :=
  match field "is_active" v, field "lane_id" v with
  | JBool _, JNumber _ _ => true
  | JBool _, JNull => true
  | _, _ => false
  end.

(** [{ class: string; confidence: number }] *)
Definition is_detection (v : JsValue) : bool :=
  match field "class" v, field "confidence" v with
  | JString _, JNumber _ _ => true
  | _, _ => false
  end.

(** [Array<T>] *)
Definition is_Array (T : JsValue -> bool) (v : JsValue) : bool :=
  match v with
  | JArray items => forallb T items
  | _ => false
  end.

(** [Record<string, T>] *)
Definition is_Record (T : JsValue -> bool) (v : JsValue) : bool :=
  match v with
  | JObject props => forallb (fun kv => T (snd kv)) props
  | _ => false
  end.

(** [interface SocketData]; [accident] is optional. *)
Definition is_SocketData (v : JsValue) : bool :=
  match v with
  | JObject props =>
      is_Record is_SignalState (field "signals" v)
      && is_flag (field "emergency" v)
      && match lookup "accident" props with
         | Some a => is_flag a
         | None => true
         end
      && is_Record (is_Array is_detection) (field "detections" v)
  | _ => false
  end.

(** [emergency.is_active] of a snapshot, as a boolean. *)
Definition emergency_is_active (S : JsValue) : bool :=
  match field "is_active" (field "emergency" S) with
  | JBool b => b
  | _ => false
  end.

(** [emergency.lane_id] of a snapshot. *)
Definition emergency_lane_id (S : JsValue) : JsValue :=
  field "lane_id" (field "emergency" S).

(** The invariant the specification puts on [emergency]:
    [lane_id] is [null] iff [is_active] is false. *)
Definition emergency_invariant (S : JsValue) : Prop :=
  emergency_lane_id S = JNull <-> emergency_is_active S = false.

(** The same map listed in another order: keys are unique, entries are a
    permutation. *)
Definition same_map (a b : JsValue) : Prop :=
  NoDup (keys (entries a)) /\ Permutation (entries a) (entries b).

(** Two snapshots that differ only in the order in which their objects
    list [signals] and [detections] and their own fields. *)
Definition reordered (S S' : JsValue) : Prop :=
  exists p q,
    S = JObject p /\ S' = JObject q /\
    (forall k, k <> "signals" -> k <> "detections" -> lookup k p = lookup k q) /\
    (exists sp sq, lookup "signals" p = Some (JObject sp) /\
                   lookup "signals" q = Some (JObject sq) /\
                   same_map (JObject sp) (JObject sq)) /\
    (exists dp dq, lookup "detections" p = Some (JObject dp) /\
                   lookup "detections" q = Some (JObject dq) /\
                   same_map (JObject dp) (JObject dq)).

(** The properties of an object other than those named [k]. *)
Definition without_key (k : string) (props : list (string * JsValue))
  : list (string * JsValue) :=
  filter (fun kv => negb (String.eqb (fst kv) k)) props.

(** Two snapshots that differ at most in their [accident] field. *)
Definition differ_only_in_accident (S S' : JsValue) : Prop :=
  exists p q,
    S = JObject p /\ S' = JObject q /\
    forall k, k <> "accident" -> lookup k p = lookup k q.

(** The lane view as section 4.4 of the specification words it. *)
Definition LaneView_spec (S : JsValue) (id : Z) : LaneView :=
  {| laneId := id;
     signalState :=
       match lookup (laneKey id) (entries (field "signals" S)) with
       | Some s => s
       | None => JString "RED"
       end;
     isEmergency :=
       emergency_is_active S && strict_eq_int (emergency_lane_id S) id;
     detections :=
       match lookup (laneKey id) (entries (field "detections" S)) with
       | Some d => d
       | None => JArray []
       end |}.

End Types.
Import Types.

(** ** The frames used as examples *)

Module Frames.

(** The frames are written with ['] where the wire has the double quote. *)
Fixpoint wire (s : string) : string :=
  match s with
  | EmptyString => EmptyString
  | String c rest =>
      String (if Ascii.eqb c "'"%char then dquote else c) (wire rest)
  end.

(** The frame of the scenario of section 8 of the specification. *)
Definition scenario_frame : string :=
  wire "{'signals':{'lane1':'GREEN','lane2':'RED','lane3':'RED','lane4':'RED'},'emergency':{'is_active':true,'lane_id':1},'detections':{'lane1':[{'class':'ambulance','confidence':0.92}]}}".

(** The value it stands for. *)
Definition scenario_snapshot : JsValue :=
  JObject
    [("signals",
      JObject [("lane1", JString "GREEN"); ("lane2", JString "RED");
               ("lane3", JString "RED"); ("lane4", JString "RED")]);
     ("emergency", JObject [("is_active", JBool true); ("lane_id", JNumber 1 0)]);
     ("detections",
      JObject [("lane1",
                JArray [JObject [("class", JString "ambulance");
                                 ("confidence", JNumber 92 (-2))]])])].

(** The same snapshot with its maps listed in another order. *)
Definition scenario_shuffled : JsValue :=
  JObject
    [("detections",
      JObject [("lane1",
                JArray [JObject [("class", JString "ambulance");
                                 ("confidence", JNumber 92 (-2))]])]);
     ("signals",
      JObject [("lane4", JString "RED"); ("lane2", JString "RED");
               ("lane1", JString "GREEN"); ("lane3", JString "RED")]);
     ("emergency", JObject [("is_active", JBool true); ("lane_id", JNumber 1 0)])].

(** The same snapshot with an [accident] field. *)
Definition scenario_with_accident : JsValue :=
  JObject
    [("signals",
      JObject [("lane1", JString "GREEN"); ("lane2", JString "RED");
               ("lane3", JString "RED"); ("lane4", JString "RED")]);
     ("emergency", JObject [("is_active", JBool true); ("lane_id", JNumber 1 0)]);
     ("accident", JObject [("is_active", JBool true); ("lane_id", JNumber 3 0)]);
     ("detections",
      JObject [("lane1",
                JArray [JObject [("class", JString "ambulance");
                                 ("confidence", JNumber 92 (-2))]])])].

(** A well-formed frame without [signals]. *)
Definition frame_without_signals : string :=
  wire "{'emergency':{'is_active':false,'lane_id':null},'detections':{}}".

(** A well-formed frame whose emergency is active and names no lane. *)
Definition frame_active_no_lane : string :=
  wire "{'signals':{},'emergency':{'is_active':true,'lane_id':null},'detections':{}}".

(** The frame of the scenario with one more key, first, and white space. *)
Definition scenario_with_sequence : string :=
  wire "{ 'sequence': 7,
  'signals':{'lane1':'GREEN','lane2':'RED','lane3':'RED','lane4':'RED'},
  'emergency':{'is_active':true,'lane_id':1},
  'detections':{'lane1':[{'class':'ambulance','confidence':0.92}]} }".

(** A frame cut short. *)
Definition frame_truncated : string := wire "{'signals':{'lane1':'GREEN'".

(** The client once its first socket is open. *)
Definition open_state : HookState :=
  deliver (deliver initial EvEffect) (EvOpen 0).

(** The client once it has received the frame of the scenario. *)
Definition live_state : HookState :=
  deliver open_state (EvMessage 0 scenario_frame).

End Frames.
Import Frames.

(** ** What a run of the client leaves behind *)

Module Traces.

(** The snapshot after one more event: a frame that parses replaces it. *)
Definition frame_value (d : JsValue) (ev : Event) : JsValue :=
  match ev with
  | EvMessage _ event_data =>
      match JSON_parse event_data with
      | Some v => v
      | None => d
      end
  | _ => d
  end.

(** The value of the last frame of the run that parses, [d] when none does. *)
Definition last_frame (d : JsValue) (evs : list Event) : JsValue :=
  fold_left frame_value evs d.

(** The flag after one more event: [open] raises it, [close] lowers it. *)
Definition lifecycle (b : bool) (ev : Event) : bool :=
  match ev with
  | EvOpen _ => true
  | EvClose _ => false
  | _ => b
  end.

Definition last_lifecycle (b : bool) (evs : list Event) : bool :=
  fold_left lifecycle evs b.

(** A socket the browser has not closed yet. *)
Definition is_live (r : ReadyState) : bool :=
  match r with
  | rs_CLOSED => false
  | _ => true
  end.

Definition live_sockets (st : HookState) : nat :=
  List.length (filter is_live (sockets st)).

(** The number of times the effect was run. *)
Definition effects (evs : list Event) : nat :=
  List.length (filter (fun ev => match ev with EvEffect => true | _ => false end) evs).

(** [socketRef.current] when it holds the socket created last. *)
Definition newest_socket (l : list ReadyState) : option nat :=
  match l with
  | [] => None
  | _ :: l' => Some (List.length l')
  end.

End Traces.
Import Traces.

(** ** [TrafficLight] and [VideoCard] (TrafficLight.tsx, VideoCard.tsx) *)

Module Card.

(** [v === 'text'] for a string literal. *)
Definition strict_eq_string (v : JsValue) (text : string) : bool :=
  match v with
  | JString s => String.eqb s text
  | _ => false
  end.

(** The three lamps of [TrafficLight]: a lamp is lit when it takes the
    bright classes of its colour, dim when it takes the dark ones. *)
Record Lamps : Type := mkLamps {
  red_lit : bool;
  yellow_lit : bool;
  green_lit : bool
}.

(** [state === 'RED' ? ... : ...], and the same for the two other lamps. *)
Definition TrafficLight (state : JsValue) : Lamps :=
  mkLamps (strict_eq_string state "RED")
          (strict_eq_string state "YELLOW")
          (strict_eq_string state "GREEN").

Definition lamps_lit (l : Lamps) : nat :=
  ((if red_lit l then 1 else 0) + (if yellow_lit l then 1 else 0)
   + (if green_lit l then 1 else 0))%nat.

Inductive Colour : Type :=
| green
| yellow
| red.

(** The dot and the text of the status line:
    [signalState === 'GREEN' ? green : signalState === 'YELLOW' ? yellow : red]. *)
Definition status_colour (signalState : JsValue) : Colour :=
  if strict_eq_string signalState "GREEN" then green
  else if strict_eq_string signalState "YELLOW" then yellow
  else red.

(** [text.replace(/_/g, ' ')] *)
Fixpoint replace_underscores (text : string) : string :=
  match text with
  | EmptyString => EmptyString
  | String c rest =>
      String (if Ascii.eqb c "_"%char then " "%char else c) (replace_underscores rest)
  end.

(** Whether a character occurs in a text. *)
Fixpoint has_char (c : ascii) (s : string) : bool :=
  match s with
  | EmptyString => false
  | String x rest => Ascii.eqb x c || has_char c rest
  end.

Fixpoint all_chars (P : ascii -> bool) (s : string) : bool :=
  match s with
  | EmptyString => true
  | String x rest => P x && all_chars P rest
  end.

(** The characters of the decimal writing of an integer. *)
Definition number_char (c : ascii) : bool := is_digit c || Ascii.eqb c "-"%char.

(** The time stamp the image is loaded with: none for [null] and for [0]. *)
Definition stamp (streamKey : option Z) : option Z :=
  match streamKey with
  | Some k => if k =? 0 then None else Some k
  | None => None
  end.

(** [det.class] when it is a string. *)
Definition class_of (det : JsValue) : string :=
  match field "class" det with
  | JString s => s
  | _ => EmptyString
  end.

(** The name shown for one detection, [det.class.replace(/_/g, ' ')]: it
    throws unless [det.class] is a string. *)
Definition detection_label (det : JsValue) : result string :=
  c <- get det "class" ;;
  match c with
  | JString s => Ok (replace_underscores s)
  | _ => TypeError
  end.

(** The detections panel, for [detections] an array as its type says:
    [detections.length > 0 && detections.map(...)], hidden ([None]) or one
    row per detection.  The percentage of a row is a floating-point
    computation and is left out; it never throws. *)
Definition detections_panel (detections : list JsValue) : result (option (list string)) :=
  match detections with
  | [] => Ok None
  | _ :: _ => rows <- mapM detection_label detections ;; Ok (Some rows)
  end.

(** [text || fallback] for an environment variable, a string or [undefined]. *)
Definition or_default (env : option string) (fallback : string) : string :=
  match env with
  | Some s => if String.eqb s "" then fallback else s
  | None => fallback
  end.

(** The [videoUrl] prop [Home] gives to the card of a lane:
    [`${videoBaseUrl}/${laneId}`], with
    [apiBaseUrl = process.env.NEXT_PUBLIC_API_URL || 'http://localhost:8000']
    and [videoBaseUrl = `${apiBaseUrl}/video`]. *)
Definition videoUrl (env : option string) (laneId : Z) : string :=
  (or_default env "http://localhost:8000" ++ "/video") ++ "/" ++ number_to_string laneId.

(** The [src] of the image: [streamKey ? `${videoUrl}?t=${streamKey}` : videoUrl],
    for [streamKey] a number of milliseconds or [null]. *)
Definition image_src (url : string) (streamKey : option Z) : string :=
  match streamKey with
  | Some k => if k =? 0 then url else url ++ "?t=" ++ number_to_string k
  | None => url
  end.

(** The props and the environment of one card. *)
Record CardProps : Type := mkCardProps {
  card_laneId : Z;
  card_env : option string;
  has_onUploadSuccess : bool
}.

(** [process.env.NEXT_PUBLIC_API_URL || 'http://127.0.0.1:8000'] *)
Definition card_apiBaseUrl (p : CardProps) : string :=
  or_default (card_env p) "http://127.0.0.1:8000".

Inductive Method : Type :=
| POST
| DELETE.

(** A call of [fetch]; [body] is the file of the form data, if any. *)
Record Request : Type := mkRequest {
  method : Method;
  url : string;
  body : option nat
}.

Definition upload_path (n : Z) : string := "/upload/" ++ number_to_string n.
Definition simulate_path (n : Z) (active : bool) : string :=
  "/signal/" ++ number_to_string n ++ "/simulate_emergency?active="
  ++ (if active then "true" else "false").
Definition force_path (n : Z) : string := "/signal/" ++ number_to_string n ++ "/force".
Definition video_path (n : Z) : string := "/video/" ++ number_to_string n.

Definition upload_request (p : CardProps) (file : nat) : Request :=
  mkRequest POST (card_apiBaseUrl p ++ upload_path (card_laneId p)) (Some file).
Definition simulate_request (p : CardProps) (active : bool) : Request :=
  mkRequest POST (card_apiBaseUrl p ++ simulate_path (card_laneId p) active) None.
Definition force_request (p : CardProps) : Request :=
  mkRequest POST (card_apiBaseUrl p ++ force_path (card_laneId p)) None.
Definition clear_request (p : CardProps) : Request :=
  mkRequest DELETE (card_apiBaseUrl p ++ video_path (card_laneId p)) None.

(** How a [fetch] settles: a response, [ok] or not, or a rejection. *)
Inductive Outcome : Type :=
| Resolved (ok : bool)
| Rejected (reason : string).

(** What runs when an awaited [fetch] settles: the rest of the handler that
    awaits it, or nothing for the [fetch] of the time-out, which nobody
    awaits. *)
Inductive Awaiting : Type :=
| after_upload
| after_simulate
| after_force
| after_clear
| detached.

(** The two functions handed to [setTimeout]:
    [() => setStreamKey(Date.now())] and the [fetch] that ends a simulated
    emergency. *)
Inductive TimerAction : Type :=
| refresh_stream
| deactivate.

Record CardTimer : Type := mkCardTimer {
  action : TimerAction;
  after_ms : Z
}.

(** What the card writes to the console: a message, an error with its
    message, or the error object of a rejection. *)
Inductive CardLog : Type :=
| card_log (msg : string)
| card_error (msg : string)
| card_error_object (reason : string).

(** The cells of the card ([useState]) and the part of the browser its
    handlers act on: the calls of [fetch] made so far, those not settled yet
    with what awaits them, the pending time-outs, the console, and the
    calls of [onUploadSuccess]. *)
Record CardState : Type := mkCardState {
  uploading : bool;
  streamKey : option Z;
  sent : list Request;
  awaiting : list Awaiting;
  card_timers : list CardTimer;
  card_console : list CardLog;
  reported : list Z
}.

(** [useState(false)], [useState(null)]. *)
Definition card_initial : CardState := mkCardState false None [] [] [] [] [].

Definition setUploading (b : bool) (st : CardState) : CardState :=
  mkCardState b (streamKey st) (sent st) (awaiting st) (card_timers st)
              (card_console st) (reported st).

Definition setStreamKey (now : Z) (st : CardState) : CardState :=
  mkCardState (uploading st) (Some now) (sent st) (awaiting st) (card_timers st)
              (card_console st) (reported st).

(** [fetch(...)] followed by what awaits it. *)
Definition fetch (r : Request) (k : Awaiting) (st : CardState) : CardState :=
  mkCardState (uploading st) (streamKey st) (sent st ++ [r]) (awaiting st ++ [k])
              (card_timers st) (card_console st) (reported st).

Definition card_setTimeout (a : TimerAction) (ms : Z) (st : CardState) : CardState :=
  mkCardState (uploading st) (streamKey st) (sent st) (awaiting st)
              (card_timers st ++ [mkCardTimer a ms]) (card_console st) (reported st).

Definition card_write (e : CardLog) (st : CardState) : CardState :=
  mkCardState (uploading st) (streamKey st) (sent st) (awaiting st) (card_timers st)
              (card_console st ++ [e]) (reported st).

(** [onUploadSuccess?.(laneId)] *)
Definition onUploadSuccess (p : CardProps) (st : CardState) : CardState :=
  if has_onUploadSuccess p then
    mkCardState (uploading st) (streamKey st) (sent st) (awaiting st) (card_timers st)
                (card_console st) (reported st ++ [card_laneId p])
  else st.

Fixpoint remove_nth {A} (i : nat) (l : list A) : list A :=
  match l, i with
  | [], _ => []
  | _ :: l', O => l'
  | x :: l', S i' => x :: remove_nth i' l'
  end.

(** [handleUpload], up to its [await]: nothing without a file. *)
Definition handleUpload (p : CardProps) (file : option nat) (st : CardState) : CardState :=
  match file with
  | None => st
  | Some f => fetch (upload_request p f) after_upload (setUploading true st)
  end.

(** [handleSimulateEmergency], [handleForceGreen] and the handler of the
    clear button, up to their [await]. *)
Definition handleSimulateEmergency (p : CardProps) (st : CardState) : CardState :=
  fetch (simulate_request p true) after_simulate st.

Definition handleForceGreen (p : CardProps) (st : CardState) : CardState :=
  fetch (force_request p) after_force st.

Definition handleClear (p : CardProps) (st : CardState) : CardState :=
  fetch (clear_request p) after_clear st.

(** The rest of a handler, once its [fetch] has settled: the [try] block
    after the [await], or the [catch], then the [finally]. *)
Definition resume (p : CardProps) (k : Awaiting) (o : Outcome) (st : CardState)
  : CardState :=
  match k, o with
  | after_upload, Resolved true =>
      setUploading false
        (card_setTimeout refresh_stream 1000
           (onUploadSuccess p
              (card_write (card_log ("Video uploaded for Lane "
                                     ++ number_to_string (card_laneId p))) st)))
  | after_upload, Resolved false => setUploading false st
  | after_upload, Rejected _ =>
      setUploading false (card_write (card_error "Upload failed") st)
  | after_simulate, Resolved _ => card_setTimeout deactivate 5000 st
  | after_simulate, Rejected _ => card_write (card_error "Simulation failed") st
  | after_force, Resolved _ => st
  | after_force, Rejected _ => card_write (card_error "Force green failed") st
  | after_clear, Resolved _ => card_setTimeout refresh_stream 500 st
  | after_clear, Rejected reason => card_write (card_error_object reason) st
  | detached, _ => st
  end.

(** What can happen to a card: it is mounted (its effect sets the stream
    key), the user picks a file or clicks a button, a [fetch] settles, a
    time-out fires. *)
Inductive CardEvent : Type :=
| CardMounted (now : Z)
| FileChosen (file : option nat)
| SimulateClicked
| ForceClicked
| ClearClicked
| Settled (i : nat) (o : Outcome)
| TimerFired (i : nat) (now : Z).

(** The upload button is disabled while [uploading]; a [fetch] settles once;
    a time-out fires once. *)
Definition card_enabled (st : CardState) (ev : CardEvent) : bool :=
  match ev with
  | FileChosen _ => negb (uploading st)
  | Settled i _ =>
      match nth_error (awaiting st) i with
      | Some _ => true
      | None => false
      end
  | TimerFired i _ =>
      match nth_error (card_timers st) i with
      | Some _ => true
      | None => false
      end
  | _ => true
  end.

Definition card_step (p : CardProps) (st : CardState) (ev : CardEvent) : CardState :=
  match ev with
  | CardMounted now => setStreamKey now st
  | FileChosen file => handleUpload p file st
  | SimulateClicked => handleSimulateEmergency p st
  | ForceClicked => handleForceGreen p st
  | ClearClicked => handleClear p st
  | Settled i o =>
      match nth_error (awaiting st) i with
      | Some k =>
          resume p k o
            (mkCardState (uploading st) (streamKey st) (sent st)
                         (remove_nth i (awaiting st)) (card_timers st)
                         (card_console st) (reported st))
      | None => st
      end
  | TimerFired i now =>
      match nth_error (card_timers st) i with
      | Some t =>
          let st' := mkCardState (uploading st) (streamKey st) (sent st) (awaiting st)
                                 (remove_nth i (card_timers st))
                                 (card_console st) (reported st) in
          match action t with
          | refresh_stream => setStreamKey now st'
          | deactivate => fetch (simulate_request p false) detached st'
          end
      | None => st
      end
  end.

Fixpoint card_run (p : CardProps) (st : CardState) (evs : list CardEvent)
  : option CardState :=
  match evs with
  | [] => Some st
  | ev :: evs' =>
      if card_enabled st ev then card_run p (card_step p st ev) evs' else None
  end.

(** How many elements of a list satisfy a test. *)
Definition count {A} (f : A -> bool) (l : list A) : nat := List.length (filter f l).

Definition is_after_simulate (k : Awaiting) : bool :=
  match k with after_simulate => true | _ => false end.
Definition is_deactivate (t : CardTimer) : bool :=
  match action t with deactivate => true | _ => false end.
Definition is_simulation_failed (e : CardLog) : bool :=
  match e with card_error msg => String.eqb msg "Simulation failed" | _ => false end.
Definition is_simulate (p : CardProps) (active : bool) (r : Request) : bool :=
  String.eqb (url r) (url (simulate_request p active)).

(** The requests a card of these props can make. *)
Definition own_request (p : CardProps) (r : Request) : Prop :=
  (exists f, r = upload_request p f) \/ r = simulate_request p true \/
  r = simulate_request p false \/ r = force_request p \/ r = clear_request p.

End Card.
Import Card.

(** ** Properties of the lane views *)

Section LookupFacts.

Lemma lookup_In k p v : lookup k p = Some v -> In (k, v) p.
Proof.
  induction p as [|[k' v'] p IH]; simpl; [discriminate|].
  destruct (String.eqb_spec k k') as [->|Hne].
  - intros [= ->]. now left.
  - intros H. right. auto.
Qed.

Lemma lookup_None_not_key k p : lookup k p = None -> ~ In k (keys p).
Proof.
  induction p as [|[k' v'] p IH]; simpl; [tauto|].
  destruct (String.eqb_spec k k') as [->|Hne]; [discriminate|].
  intros H [Heq|Hin]; [congruence|]. now apply IH.
Qed.

Lemma In_lookup_unique k v p :
  NoDup (keys p) -> In (k, v) p -> lookup k p = Some v.
Proof.
  induction p as [|[k' v'] p IH]; simpl; [tauto|].
  intros Hnd [Heq|Hin].
  - injection Heq as -> ->. now rewrite String.eqb_refl.
  - inversion Hnd as [|? ? Hnotin Hnd']; subst.
    destruct (String.eqb_spec k k') as [->|Hne].
    + exfalso. apply Hnotin. unfold keys. now apply (in_map fst _ (k', v)).
    + auto.
Qed.

Lemma lookup_Permutation p q k :
  NoDup (keys p) -> Permutation p q -> lookup k p = lookup k q.
Proof.
  intros Hnd Hperm.
  assert (Hnd' : NoDup (keys q)).
  { unfold keys. eapply Permutation_NoDup; [|exact Hnd].
    now apply Permutation_map. }
  destruct (lookup k p) as [v|] eqn:Hp.
  - symmetry. apply In_lookup_unique; [assumption|].
    eapply Permutation_in; [exact Hperm|]. now apply lookup_In.
  - destruct (lookup k q) as [w|] eqn:Hq; [|reflexivity].
    apply lookup_In in Hq.
    apply Permutation_sym in Hperm.
    apply (Permutation_in _ Hperm) in Hq.
    apply In_lookup_unique in Hq; [congruence|assumption].
Qed.

Lemma field_object_lookup k p q :
  field k (JObject p) = JObject q -> lookup k p = Some (JObject q).
Proof.
  simpl. destruct (lookup k p); [now intros ->|discriminate].
Qed.

Lemma is_Record_inv T v :
  is_Record T v = true ->
  exists p, v = JObject p /\ forall k x, lookup k p = Some x -> T x = true.
Proof.
  destruct v; simpl; try discriminate.
  intros H. exists props. split; [reflexivity|].
  intros k x Hk. apply lookup_In in Hk.
  rewrite forallb_forall in H. exact (H _ Hk).
Qed.

Lemma is_flag_inv v :
  is_flag v = true ->
  exists p b l, v = JObject p /\ lookup "is_active" p = Some (JBool b) /\
                lookup "lane_id" p = Some l /\
                (l = JNull \/ exists m e, l = JNumber m e).
Proof.
  unfold is_flag. destruct v as [| | | | | |p]; simpl; try discriminate.
  destruct (lookup "is_active" p) as [[| |b| | | |]|] eqn:Ha; try discriminate.
  destruct (lookup "lane_id" p) as [l|] eqn:Hl; try discriminate.
  intros H. exists p, b, l.
  split; [reflexivity|]. split; [exact Ha|]. split; [exact Hl|].
  destruct l; try discriminate; eauto.
Qed.

Lemma is_SignalState_truthy v : is_SignalState v = true -> truthy v = true.
Proof.
  destruct v; simpl; try discriminate.
  destruct s; simpl; [discriminate|reflexivity].
Qed.

Lemma is_Array_truthy T v : is_Array T v = true -> truthy v = true.
Proof. destruct v; simpl; try discriminate; reflexivity. Qed.

Lemma strict_eq_int_inj v a b :
  strict_eq_int v a = true -> strict_eq_int v b = true -> a = b.
Proof.
  destruct v; cbn [strict_eq_int]; try discriminate.
  destruct (to_double m e) as [q k|neg]; [|discriminate].
  destruct (0 <=? k) eqn:Hk.
  - intros Ha Hb. apply Z.eqb_eq in Ha, Hb. congruence.
  - intros Ha Hb. apply Z.eqb_eq in Ha, Hb.
    apply Z.leb_gt in Hk.
    assert (Hpow : 2 ^ (- k) <> 0) by (apply Z.pow_nonzero; lia).
    rewrite Ha in Hb. now apply Z.mul_reg_r in Hb.
Qed.

Lemma round_half_even_exact n : round_half_even n 1 = n.
Proof.
  unfold round_half_even. rewrite Z.div_1_r, Z.mod_1_r. reflexivity.
Qed.

Lemma to_double_integer n :
  Z.abs n < 2 ^ 53 ->
  exists k, -52 <= k <= 0 /\ to_double n 0 = finite (n * 2 ^ (- k)) k.
Proof.
  intros Hn. unfold to_double.
  destruct (n =? 0) eqn:H0.
  - apply Z.eqb_eq in H0. subst n. exists 0. split; [lia|reflexivity].
  - apply Z.eqb_neq in H0.
    change (0 <=? 0) with true. cbv iota zeta.
    rewrite Z.pow_0_r, Z.mul_1_r. change (Z.log2 1) with 0. rewrite Z.sub_0_r.
    assert (Ha : 0 < Z.abs n) by lia.
    pose proof (Z.log2_nonneg (Z.abs n)) as Hl0.
    assert (Hl : Z.log2 (Z.abs n) < 53) by (apply Z.log2_lt_pow2; lia).
    pose proof (Z.log2_spec (Z.abs n) Ha) as [Hlo _].
    set (l := Z.log2 (Z.abs n)) in *.
    replace (0 <=? l) with true by (symmetry; apply Z.leb_le; lia).
    replace (1 * 2 ^ l <=? Z.abs n) with true by (symmetry; apply Z.leb_le; lia).
    rewrite Z.max_l by lia.
    exists (l - 52). split; [lia|].
    replace (971 <? l - 52) with false by (symmetry; apply Z.ltb_ge; lia).
    replace (l - 52 =? 971) with false by (symmetry; apply Z.eqb_neq; lia).
    cbn [orb andb].
    destruct (0 <=? l - 52) eqn:Hk.
    + apply Z.leb_le in Hk. assert (l = 52) by lia.
      replace (l - 52) with 0 by lia. cbn [Z.opp].
      rewrite Z.pow_0_r, Z.mul_1_r, round_half_even_exact, Z.mul_1_r.
      destruct (n <? 0) eqn:Hs; f_equal;
        [apply Z.ltb_lt in Hs|apply Z.ltb_ge in Hs]; lia.
    + rewrite round_half_even_exact.
      destruct (n <? 0) eqn:Hs; f_equal;
        [apply Z.ltb_lt in Hs|apply Z.ltb_ge in Hs].
      * rewrite Z.abs_neq by lia. lia.
      * rewrite Z.abs_eq by lia. reflexivity.
Qed.

(** [v === id] holds exactly when [v] is a number whose binary64 value is
    the integer [id]. *)
Lemma strict_eq_int_spec v id :
  strict_eq_int v id = true <->
  exists m e q k,
    v = JNumber m e /\ to_double m e = finite q k /\
    q * 2 ^ Z.max k 0 = id * 2 ^ Z.max (- k) 0.
Proof.
  split.
  - destruct v; cbn [strict_eq_int]; try discriminate.
    destruct (to_double m e) as [q k|neg] eqn:Hd; [|discriminate].
    intros H. exists m, e, q, k. split; [reflexivity|]. split; [exact Hd|].
    destruct (0 <=? k) eqn:Hk.
    + apply Z.leb_le in Hk. apply Z.eqb_eq in H.
      rewrite Z.max_l, Z.max_r by lia. rewrite Z.pow_0_r. lia.
    + apply Z.leb_gt in Hk. apply Z.eqb_eq in H.
      rewrite Z.max_r, Z.max_l by lia. rewrite Z.pow_0_r. lia.
  - intros (m & e & q & k & -> & Hd & H). cbn [strict_eq_int]. rewrite Hd.
    destruct (0 <=? k) eqn:Hk.
    + apply Z.leb_le in Hk. apply Z.eqb_eq.
      rewrite Z.max_l, Z.max_r in H by lia. rewrite Z.pow_0_r in H. lia.
    + apply Z.leb_gt in Hk. apply Z.eqb_eq.
      rewrite Z.max_r, Z.max_l in H by lia. rewrite Z.pow_0_r in H. lia.
Qed.

Lemma strict_eq_int_integer n id :
  Z.abs n < 2 ^ 53 -> strict_eq_int (JNumber n 0) id = (n =? id).
Proof.
  intros Hn. destruct (to_double_integer n Hn) as (k & Hk & Hd).
  cbn [strict_eq_int]. rewrite Hd.
  assert (Hp : 0 < 2 ^ (- k)) by (apply Z.pow_pos_nonneg; lia).
  destruct (0 <=? k) eqn:Hk0.
  - apply Z.leb_le in Hk0. assert (k = 0) by lia. subst k.
    cbn [Z.opp]. rewrite Z.pow_0_r, !Z.mul_1_r. reflexivity.
  - destruct (n =? id) eqn:E.
    + apply Z.eqb_eq in E. subst. apply Z.eqb_eq. reflexivity.
    + apply Z.eqb_neq in E. apply Z.eqb_neq. intros H.
      apply Z.mul_reg_r in H; lia.
Qed.

Lemma mapM_ext {A B} (f g : A -> result B) l :
  (forall a, In a l -> f a = g a) -> mapM f l = mapM g l.
Proof.
  induction l as [|a l IH]; simpl; [reflexivity|].
  intros H. rewrite (H a) by now left. rewrite IH; [reflexivity|].
  intros; apply H; now right.
Qed.

Lemma mapM_total {A B} (f : A -> result B) (g : A -> B) l :
  (forall a, f a = Ok (g a)) -> mapM f l = Ok (map g l).
Proof.
  intros H. induction l as [|a l IH]; simpl; [reflexivity|].
  now rewrite H, IH.
Qed.

End LookupFacts.

(** On a value of type [SocketData] the callback of [lanes.map] never
    throws, and computes the view the specification words. *)
Lemma lane_view_SocketData S id :
  is_SocketData S = true -> lane_view S id = Ok (LaneView_spec S id).
Proof.
  unfold is_SocketData. destruct S; try discriminate.
  rewrite !andb_true_iff. intros [[[Hsig Hem] _] Hdet].
  apply is_Record_inv in Hsig as (sp & Hsp & Hsig).
  apply is_Record_inv in Hdet as (dp & Hdp & Hdet).
  apply is_flag_inv in Hem as (ep & b & l & Hep & Hact & Hlane & _).
  pose proof (field_object_lookup _ _ _ Hsp) as Lsig.
  pose proof (field_object_lookup _ _ _ Hdp) as Ldet.
  pose proof (field_object_lookup _ _ _ Hep) as Lem.
  unfold lane_view, LaneView_spec, emergency_is_active, emergency_lane_id.
  rewrite Hsp, Hdp, Hep.
  unfold lane_signalState, lane_isEmergency, lane_detections.
  cbn [nullish get bind field entries].
  rewrite Lsig, Ldet, Lem. cbn [bind get nullish].
  rewrite Hact, Hlane. cbn [bind truthy].
  assert (Es : (match lookup (laneKey id) sp with
                | Some x => Ok x | None => Ok JUndefined end) =
               Ok (match lookup (laneKey id) sp with
                   | Some x => x | None => JUndefined end))
    by (destruct (lookup (laneKey id) sp); reflexivity).
  assert (Ed : (match lookup (laneKey id) dp with
                | Some x => Ok x | None => Ok JUndefined end) =
               Ok (match lookup (laneKey id) dp with
                   | Some x => x | None => JUndefined end))
    by (destruct (lookup (laneKey id) dp); reflexivity).
  rewrite Es, Ed. cbn [bind].
  assert (Os : or_else (match lookup (laneKey id) sp with
                        | Some x => x | None => JUndefined end) (JString "RED") =
               match lookup (laneKey id) sp with
               | Some s => s | None => JString "RED" end).
  { destruct (lookup (laneKey id) sp) as [x|] eqn:Hx; [|reflexivity].
    unfold or_else. now rewrite (is_SignalState_truthy _ (Hsig _ _ Hx)). }
  assert (Od : or_else (match lookup (laneKey id) dp with
                        | Some x => x | None => JUndefined end) (JArray []) =
               match lookup (laneKey id) dp with
               | Some d => d | None => JArray [] end).
  { destruct (lookup (laneKey id) dp) as [x|] eqn:Hx; [|reflexivity].
    unfold or_else. now rewrite (is_Array_truthy _ _ (Hdet _ _ Hx)). }
  rewrite Os, Od.
  destruct b; reflexivity.
Qed.

Lemma derive_SocketData S L :
  is_SocketData S = true -> derive S L = Ok (map (LaneView_spec S) L).
Proof.
  intros HS. unfold derive. apply mapM_total.
  intros id. now apply lane_view_SocketData.
Qed.

Lemma get_ext p q k : lookup k p = lookup k q -> get (JObject p) k = get (JObject q) k.
Proof. simpl. now intros ->. Qed.

Lemma lane_view_reordered S S' id :
  reordered S S' -> lane_view S' id = lane_view S id.
Proof.
  intros (p & q & -> & -> & Hother & Hsig & Hdet).
  destruct Hsig as (sp & sq & Hsp & Hsq & Hnds & Hperms).
  destruct Hdet as (dp & dq & Hdp & Hdq & Hndd & Hpermd).
  simpl in Hnds, Hperms, Hndd, Hpermd.
  assert (Hem : get (JObject q) "emergency" = get (JObject p) "emergency").
  { apply get_ext. symmetry. apply Hother; discriminate. }
  unfold lane_view, lane_signalState, lane_isEmergency, lane_detections.
  cbn [nullish]. rewrite Hem.
  cbn [get]. rewrite Hsp, Hsq, Hdp, Hdq. cbn [bind get nullish].
  rewrite (lookup_Permutation sp sq (laneKey id) Hnds Hperms).
  rewrite (lookup_Permutation dp dq (laneKey id) Hndd Hpermd).
  reflexivity.
Qed.

Lemma lane_view_accident S S' id :
  differ_only_in_accident S S' -> lane_view S id = lane_view S' id.
Proof.
  intros (p & q & -> & -> & Hother).
  unfold lane_view, lane_signalState, lane_isEmergency, lane_detections.
  cbn [nullish].
  rewrite (get_ext p q "signals") by (apply Hother; discriminate).
  rewrite (get_ext p q "emergency") by (apply Hother; discriminate).
  rewrite (get_ext p q "detections") by (apply Hother; discriminate).
  reflexivity.
Qed.

Lemma banner_accident S S' :
  differ_only_in_accident S S' -> banner S = banner S'.
Proof.
  intros (p & q & -> & -> & Hother).
  unfold banner. cbn [nullish].
  rewrite (get_ext p q "emergency") by (apply Hother; discriminate).
  reflexivity.
Qed.

Lemma same_image_NoDup {A B} (f : A -> B) (l : list A) :
  NoDup (map f l) ->
  (forall a b, In a l -> In b l -> f a = f b) ->
  (List.length l <= 1)%nat.
Proof.
  destruct l as [|a [|b l]]; simpl; intros Hnd Hsame; try lia.
  exfalso. inversion Hnd as [|? ? Hnotin _]; subst.
  apply Hnotin. left. symmetry. apply Hsame; auto.
Qed.

Lemma NoDup_map_filter {A B} (f : A -> B) (P : A -> bool) (l : list A) :
  NoDup (map f l) -> NoDup (map f (filter P l)).
Proof.
  induction l as [|a l IH]; simpl; [auto|].
  intros Hnd. inversion Hnd as [|? ? Hnotin Hnd']; subst.
  destruct (P a); simpl; [|auto].
  constructor; [|auto].
  intros Hin. apply Hnotin.
  apply in_map_iff in Hin as (x & Hx & Hin).
  apply filter_In in Hin as [Hin _].
  apply in_map_iff. eauto.
Qed.

Example laneKey_1 : laneKey 1 = "lane1".
Proof. reflexivity. Qed.

Example scenario_frame_parses : JSON_parse scenario_frame = Some scenario_snapshot.
Proof. vm_compute. reflexivity. Qed.

Example scenario_is_SocketData : is_SocketData scenario_snapshot = true.
Proof. reflexivity. Qed.

Lemma scenario_reordered : reordered scenario_snapshot scenario_shuffled.
Proof.
  unfold reordered, scenario_snapshot, scenario_shuffled.
  eexists _, _. split; [reflexivity|]. split; [reflexivity|]. split.
  - intros k Hs Hd. simpl.
    destruct (String.eqb_spec k "signals"); [contradiction|].
    destruct (String.eqb_spec k "detections"); [contradiction|].
    reflexivity.
  - split.
    + eexists _, _. split; [reflexivity|]. split; [reflexivity|]. split.
      * simpl. repeat constructor; simpl; intuition discriminate.
      * simpl.
        apply Permutation_sym.
        apply (Permutation_cons_app [("lane1", JString "GREEN"); ("lane2", JString "RED");
                                     ("lane3", JString "RED")] []).
        simpl.
        apply (Permutation_cons_app [("lane1", JString "GREEN")]
                                    [("lane3", JString "RED")]).
        reflexivity.
    + eexists _, _. split; [reflexivity|]. split; [reflexivity|]. split.
      * simpl. repeat constructor; simpl; tauto.
      * reflexivity.
Qed.

Lemma scenario_accident : differ_only_in_accident scenario_snapshot scenario_with_accident.
Proof.
  eexists _, _. split; [reflexivity|]. split; [reflexivity|].
  intros k Hk. simpl.
  destruct (String.eqb_spec k "accident"); [contradiction|]. reflexivity.
Qed.

(** C5. For every value [S] of type [SocketData] and every list [L] of lane
    ids, [derive S L] returns one record per element of [L], in the order of
    [L]; listing the maps of [S] in another order gives the same records;
    the records flagged [isEmergency] all belong to one lane (to one record
    when [L] has no repetition), and there is none unless
    [S.emergency.is_active]. *)
Theorem derive_shape (S : JsValue) (L : list Z) :
  is_SocketData S = true ->
  exists views,
    derive S L = Ok views /\
    List.length views = List.length L /\
    map laneId views = L /\
    (forall S', reordered S S' -> derive S' L = Ok views) /\
    (forall v w, In v views -> In w views ->
                 isEmergency v = true -> isEmergency w = true ->
                 laneId v = laneId w) /\
    (NoDup L -> (List.length (filter isEmergency views) <= 1)%nat) /\
    (forall v, In v views -> isEmergency v = true -> emergency_is_active S = true).
Proof.
  intros HS. exists (map (LaneView_spec S) L).
  assert (Hids : map laneId (map (LaneView_spec S) L) = L).
  { rewrite map_map. simpl. apply map_id. }
  assert (Hone : forall v w, In v (map (LaneView_spec S) L) ->
                             In w (map (LaneView_spec S) L) ->
                             isEmergency v = true -> isEmergency w = true ->
                             laneId v = laneId w).
  { intros v w Hv Hw.
    apply in_map_iff in Hv as (a & <- & _). apply in_map_iff in Hw as (b & <- & _).
    simpl. rewrite !andb_true_iff. intros [_ Ha] [_ Hb].
    eapply strict_eq_int_inj; eassumption. }
  split; [now apply derive_SocketData|].
  split; [now rewrite length_map|].
  split; [exact Hids|].
  split.
  { intros S' HR. rewrite <- (derive_SocketData S L HS). unfold derive.
    apply mapM_ext. intros id _. now apply lane_view_reordered. }
  split; [exact Hone|].
  split.
  { intros Hnd. apply (same_image_NoDup laneId).
    - apply NoDup_map_filter. now rewrite Hids.
    - intros a b Ha Hb. apply filter_In in Ha as [Ha Ea], Hb as [Hb Eb]. auto. }
  intros v Hv. apply in_map_iff in Hv as (a & <- & _).
  simpl. rewrite andb_true_iff. tauto.
Qed.

Lemma derive_shape_witness :
  is_SocketData scenario_snapshot = true /\
  exists views,
    derive scenario_snapshot lanes = Ok views /\
    List.length views = List.length lanes /\
    map laneId views = lanes /\
    (forall S', reordered scenario_snapshot S' -> derive S' lanes = Ok views) /\
    (forall v w, In v views -> In w views ->
                 isEmergency v = true -> isEmergency w = true ->
                 laneId v = laneId w) /\
    (NoDup lanes -> (List.length (filter isEmergency views) <= 1)%nat) /\
    (forall v, In v views -> isEmergency v = true ->
               emergency_is_active scenario_snapshot = true).
Proof.
  split; [reflexivity|].
  apply (derive_shape scenario_snapshot lanes). reflexivity.
Defined.

(** C6. For every value [S] of type [SocketData] and every lane id at a
    position of [L], the record at that position has: for [signalState],
    [S.signals] at the lane key when that key is present, ['RED'] otherwise;
    for [detections], [S.detections] at the lane key when present, the empty
    array otherwise; and [isEmergency] is true iff [S.emergency.is_active]
    and [S.emergency.lane_id === id].  The lane key is the text [lane]
    followed by the decimal numeral of the id.  The equality is the one of
    binary64 numbers: [lane_id] is a number whose binary64 value [q * 2^k]
    is the id; so for a [lane_id] written as an integer below [2^53] it is
    equality of integers, and a [null] [lane_id] flags no lane. *)
Theorem derive_fields (S : JsValue) (L : list Z) (i : nat) (id : Z) :
  is_SocketData S = true ->
  nth_error L i = Some id ->
  exists views v,
    derive S L = Ok views /\
    nth_error views i = Some v /\
    laneId v = id /\
    signalState v =
      match lookup ("lane" ++ NilZero.string_of_int (Z.to_int id))
                   (entries (field "signals" S)) with
      | Some s => s
      | None => JString "RED"
      end /\
    detections v =
      match lookup ("lane" ++ NilZero.string_of_int (Z.to_int id))
                   (entries (field "detections" S)) with
      | Some d => d
      | None => JArray []
      end /\
    (isEmergency v = true <->
     emergency_is_active S = true /\
     exists m e q k,
       emergency_lane_id S = JNumber m e /\
       to_double m e = finite q k /\
       q * 2 ^ Z.max k 0 = id * 2 ^ Z.max (- k) 0) /\
    (forall n, Z.abs n < 2 ^ 53 -> emergency_lane_id S = JNumber n 0 ->
       (isEmergency v = true <-> emergency_is_active S = true /\ n = id)) /\
    (emergency_lane_id S = JNull -> isEmergency v = false).
Proof.
  intros HS Hi.
  exists (map (LaneView_spec S) L), (LaneView_spec S id).
  split; [now apply derive_SocketData|].
  split; [now apply map_nth_error|].
  split; [reflexivity|]. split; [reflexivity|]. split; [reflexivity|].
  cbn [isEmergency LaneView_spec].
  split; [|split].
  - rewrite andb_true_iff, strict_eq_int_spec. reflexivity.
  - intros n Hn ->. rewrite andb_true_iff, strict_eq_int_integer by exact Hn.
    now rewrite Z.eqb_eq.
  - intros ->. apply andb_false_r.
Qed.

Lemma derive_fields_witness :
  exists views v,
    derive scenario_snapshot lanes = Ok views /\
    nth_error views 0 = Some v /\
    laneId v = 1 /\
    signalState v =
      match lookup ("lane" ++ NilZero.string_of_int (Z.to_int 1))
                   (entries (field "signals" scenario_snapshot)) with
      | Some s => s
      | None => JString "RED"
      end /\
    detections v =
      match lookup ("lane" ++ NilZero.string_of_int (Z.to_int 1))
                   (entries (field "detections" scenario_snapshot)) with
      | Some d => d
      | None => JArray []
      end /\
    (isEmergency v = true <->
     emergency_is_active scenario_snapshot = true /\
     exists m e q k,
       emergency_lane_id scenario_snapshot = JNumber m e /\
       to_double m e = finite q k /\
       q * 2 ^ Z.max k 0 = 1 * 2 ^ Z.max (- k) 0) /\
    (forall n, Z.abs n < 2 ^ 53 ->
       emergency_lane_id scenario_snapshot = JNumber n 0 ->
       (isEmergency v = true <->
        emergency_is_active scenario_snapshot = true /\ n = 1)) /\
    (emergency_lane_id scenario_snapshot = JNull -> isEmergency v = false).
Proof.
  apply (derive_fields scenario_snapshot lanes 0 1); reflexivity.
Defined.

(** C7. Before any frame has arrived [data] is [null], and for every list
    [L] of lane ids [derive null L] returns, for each lane of [L], the record
    with [signalState] ['RED'], [isEmergency] false and no detection. *)
Theorem derive_null (L : list Z) :
  data initial = JNull /\
  derive JNull L =
  Ok (map (fun id => mkLaneView id (JString "RED") false (JArray [])) L).
Proof.
  split; [reflexivity|].
  unfold derive. apply mapM_total. reflexivity.
Qed.

(** C8. When the client receives the frame of the scenario, the snapshot it
    caches gives, for the lanes 1 to 4: lane 1 with [signalState] ['GREEN'],
    [isEmergency] true and the one detection of class [ambulance] and
    confidence 0.92 (the number [92 * 10^-2]); lanes 2 to 4 with ['RED'],
    false and no detection.  The detection record is the one of the frame,
    whose class name is under the key [class]. *)
Theorem scenario_views :
  run initial [EvEffect; EvOpen 0; EvMessage 0 scenario_frame] = Some live_state /\
  data live_state = scenario_snapshot /\
  derive (data live_state) [1; 2; 3; 4] =
  Ok [ mkLaneView 1 (JString "GREEN") true
         (JArray [JObject [("class", JString "ambulance");
                           ("confidence", JNumber 92 (-2))]]);
       mkLaneView 2 (JString "RED") false (JArray []);
       mkLaneView 3 (JString "RED") false (JArray []);
       mkLaneView 4 (JString "RED") false (JArray []) ].
Proof.
  assert (H : data live_state = scenario_snapshot).
  { unfold live_state. cbn [deliver]. unfold onmessage.
    rewrite scenario_frame_parses. reflexivity. }
  split; [reflexivity|]. split; [exact H|]. rewrite H. reflexivity.
Qed.

(** C10. Two snapshots that differ at most in their [accident] field (absent
    in one, present with any value in the other, or present with two values)
    give the same lane records for every list of lanes, the same alert
    overlay, and the same rendering of [Home]. *)
Theorem accident_no_influence (S S' : JsValue) (L : list Z) (connected : bool) :
  differ_only_in_accident S S' ->
  derive S L = derive S' L /\
  banner S = banner S' /\
  Home S connected = Home S' connected.
Proof.
  intros HD.
  assert (Hd : forall L', derive S L' = derive S' L').
  { intros L'. unfold derive. apply mapM_ext. intros id _.
    now apply lane_view_accident. }
  assert (Hb : banner S = banner S') by now apply banner_accident.
  split; [apply Hd|]. split; [exact Hb|].
  unfold Home. now rewrite Hd, Hb.
Qed.

Lemma accident_no_influence_witness :
  derive scenario_snapshot lanes = derive scenario_with_accident lanes /\
  banner scenario_snapshot = banner scenario_with_accident /\
  Home scenario_snapshot true = Home scenario_with_accident true.
Proof.
  apply (accident_no_influence scenario_snapshot scenario_with_accident lanes true).
  eexists _, _. split; [reflexivity|]. split; [reflexivity|].
  intros k Hk. simpl.
  destruct (String.eqb_spec k "accident"); [contradiction|]. reflexivity.
Defined.

(** ** The parser uses less fuel than the text is long *)

Section ParserFuel.

Local Open Scope nat_scope.

Lemma andThen_Parsed {A B} (p : parsed A) (k : A -> string -> parsed B) b r :
  andThen p k = Parsed b r ->
  exists a r0, p = Parsed a r0 /\ k a r0 = Parsed b r.
Proof. destruct p; simpl; try discriminate. eauto. Qed.

Lemma andThen_OutOfFuel {A B} (p : parsed A) (k : A -> string -> parsed B) :
  andThen p k = OutOfFuel ->
  p = OutOfFuel \/ exists a r0, p = Parsed a r0 /\ k a r0 = OutOfFuel.
Proof. destruct p; simpl; try discriminate; eauto. Qed.

Lemma skip_ws_length s : String.length (skip_ws s) <= String.length s.
Proof.
  induction s as [|c s IH]; simpl; [lia|].
  destruct (is_ws c); simpl; lia.
Qed.

Lemma span_digits_length s ds r :
  span_digits s = (ds, r) -> String.length s = String.length ds + String.length r.
Proof.
  revert ds r. induction s as [|c s IH]; simpl; intros ds r.
  - intros [= <- <-]. reflexivity.
  - destruct (is_digit c).
    + destruct (span_digits s) as [ds' r'] eqn:E. intros [= <- <-].
      simpl. rewrite (IH ds' r' eq_refl). reflexivity.
    + intros [= <- <-]. reflexivity.
Qed.

Lemma int_ok_nonempty ds : int_ok ds = true -> 1 <= String.length ds.
Proof. destruct ds; simpl; [discriminate|lia]. Qed.

Lemma parse_number_shrinks s v r :
  parse_number s = Parsed v r -> String.length r < String.length s.
Proof.
  unfold parse_number.
  set (sign := match s with
               | String c r0 => if Ascii.eqb c "-" then (true, r0) else (false, s)
               | EmptyString => (false, s)
               end).
  assert (Hs1 : String.length (snd sign) <= String.length s).
  { subst sign. destruct s as [|c s']; simpl; [lia|].
    destruct (Ascii.eqb c "-"); simpl; lia. }
  destruct sign as [neg s1]. simpl in Hs1.
  destruct (span_digits s1) as [int s2] eqn:Hint.
  apply span_digits_length in Hint.
  destruct (int_ok int) eqn:Hok; simpl; [|discriminate].
  apply int_ok_nonempty in Hok.
  set (frac := match s2 with
               | String c r0 =>
                   if Ascii.eqb c "."
                   then let '(fd, r') := span_digits r0 in (negb (is_empty fd), fd, r')
                   else (true, EmptyString, s2)
               | EmptyString => (true, EmptyString, s2)
               end).
  assert (Hs3 : String.length (snd frac) <= String.length s2).
  { subst frac. destruct s2 as [|c s2']; simpl; [lia|].
    destruct (Ascii.eqb c ".").
    - destruct (span_digits s2') as [fd r'] eqn:E.
      apply span_digits_length in E. simpl. lia.
    - simpl. lia. }
  destruct frac as [[frac_ok fd] s3]. simpl in Hs3.
  destruct frac_ok; simpl; [|discriminate].
  set (ex := match s3 with
             | String c r0 =>
                 if (Ascii.eqb c "e" || Ascii.eqb c "E")%bool
                 then
                   let '(eneg, r1) :=
                     match r0 with
                     | String c' r' =>
                         if Ascii.eqb c' "-" then (true, r')
                         else if Ascii.eqb c' "+" then (false, r') else (false, r0)
                     | EmptyString => (false, r0)
                     end in
                   let '(ed, r2) := span_digits r1 in
                   (negb (is_empty ed),
                    if eneg then (- digits_value ed)%Z else digits_value ed, r2)
                 else (true, 0%Z, s3)
             | EmptyString => (true, 0%Z, s3)
             end).
  assert (Hs4 : String.length (snd ex) <= String.length s3).
  { subst ex. destruct s3 as [|c s3']; simpl; [lia|].
    destruct (Ascii.eqb c "e" || Ascii.eqb c "E")%bool; [|simpl; lia].
    set (sg := match s3' with
               | String c' r' =>
                   if Ascii.eqb c' "-" then (true, r')
                   else if Ascii.eqb c' "+" then (false, r') else (false, s3')
               | EmptyString => (false, s3')
               end).
    assert (Hsg : String.length (snd sg) <= String.length s3').
    { subst sg. destruct s3' as [|c' r']; simpl; [lia|].
      destruct (Ascii.eqb c' "-"); simpl; [lia|].
      destruct (Ascii.eqb c' "+"); simpl; lia. }
    destruct sg as [eneg r1]. simpl in Hsg.
    destruct (span_digits r1) as [ed r2] eqn:E.
    apply span_digits_length in E. simpl. lia. }
  destruct ex as [[exp_ok e] s4]. simpl in Hs4.
  destruct exp_ok; simpl; [|discriminate].
  intros [= _ <-]. lia.
Qed.

Lemma parse_number_fuel s : parse_number s <> OutOfFuel.
Proof.
  unfold parse_number.
  repeat match goal with
         | |- context [let '(_, _) := ?x in _] => destruct x
         | |- context [if ?b then _ else _] => destruct b
         | |- context [match ?x with _ => _ end] => destruct x
         end; discriminate.
Qed.

Lemma string_items_shrinks_bounded n :
  forall s l r, String.length s <= n ->
                string_items s = Parsed l r -> String.length r < String.length s.
Proof.
  induction n as [|n IH]; intros s l r Hn.
  - destruct s; simpl in *; [discriminate|lia].
  - destruct s as [|c rest]; [discriminate|]. simpl in Hn. simpl.
    destruct (Ascii.eqb c dquote).
    { intros [= _ <-]. lia. }
    destruct (Ascii.eqb c "\").
    + destruct rest as [|e rest']; [discriminate|]. simpl in Hn.
      assert (Hsimple : forall b,
                 andThen (string_items rest') (fun l0 r0 => Parsed (Raw b :: l0) r0)
                 = Parsed l r ->
                 String.length r < S (S (String.length rest'))).
      { intros b H. apply andThen_Parsed in H as (l0 & r0 & H0 & [= _ <-]).
        apply IH in H0; lia. }
      repeat match goal with
             | |- context [if Ascii.eqb e ?x then _ else _] =>
                 destruct (Ascii.eqb e x); [solve [apply Hsimple]|]
             end.
      destruct (Ascii.eqb e "u"); [|discriminate].
      destruct rest' as [|h1 [|h2 [|h3 [|h4 rest'']]]]; try discriminate.
      simpl in Hn. destruct (hex4 h1 h2 h3 h4); [|discriminate].
      intros H. apply andThen_Parsed in H as (l0 & r0 & H0 & [= _ <-]).
      apply IH in H0; simpl; lia.
    + destruct (N_of_ascii c <? 32)%N; [discriminate|].
      intros H. apply andThen_Parsed in H as (l0 & r0 & H0 & [= _ <-]).
      apply IH in H0; lia.
Qed.

Lemma string_items_shrinks s l r :
  string_items s = Parsed l r -> String.length r < String.length s.
Proof. apply (string_items_shrinks_bounded (String.length s)). lia. Qed.

Lemma string_items_fuel_bounded n :
  forall s, String.length s <= n -> string_items s <> OutOfFuel.
Proof.
  induction n as [|n IH]; intros s Hn.
  - destruct s; simpl in *; [discriminate|lia].
  - destruct s as [|c rest]; [discriminate|]. simpl in Hn. simpl.
    destruct (Ascii.eqb c dquote); [discriminate|].
    destruct (Ascii.eqb c "\").
    + destruct rest as [|e rest']; [discriminate|]. simpl in Hn.
      assert (Hsimple : forall b,
                 andThen (string_items rest') (fun l0 r0 => Parsed (Raw b :: l0) r0)
                 <> OutOfFuel).
      { intros b H. apply andThen_OutOfFuel in H as [H|(l0 & r0 & _ & H)];
          [|discriminate]. revert H. apply IH. lia. }
      repeat match goal with
             | |- context [if Ascii.eqb e ?x then _ else _] =>
                 destruct (Ascii.eqb e x); [solve [apply Hsimple]|]
             end.
      destruct (Ascii.eqb e "u"); [|discriminate].
      destruct rest' as [|h1 [|h2 [|h3 [|h4 rest'']]]]; try discriminate.
      simpl in Hn. destruct (hex4 h1 h2 h3 h4); [|discriminate].
      intros H. apply andThen_OutOfFuel in H as [H|(l0 & r0 & _ & H)];
        [|discriminate]. revert H. apply IH. lia.
    + destruct (N_of_ascii c <? 32)%N; [discriminate|].
      intros H. apply andThen_OutOfFuel in H as [H|(l0 & r0 & _ & H)];
        [|discriminate]. revert H. apply IH. lia.
Qed.

Lemma string_literal_shrinks s k r :
  string_literal s = Parsed k r -> String.length r < String.length s.
Proof.
  unfold string_literal. intros H.
  apply andThen_Parsed in H as (l0 & r0 & H0 & [= _ <-]).
  now apply string_items_shrinks in H0.
Qed.

Lemma string_literal_fuel s : string_literal s <> OutOfFuel.
Proof.
  unfold string_literal. intros H.
  apply andThen_OutOfFuel in H as [H|(l0 & r0 & _ & H)]; [|discriminate].
  revert H. apply (string_items_fuel_bounded (String.length s)). lia.
Qed.

Lemma keyword_shrinks w v s v' r :
  keyword w v s = Parsed v' r -> String.length r <= String.length s.
Proof.
  revert s. induction w as [|c w IH]; simpl; intros s.
  - intros [= _ <-]. lia.
  - destruct s as [|c' s']; [discriminate|].
    destruct (Ascii.eqb c' c); [|discriminate].
    intros H. apply IH in H. simpl. lia.
Qed.

Lemma keyword_fuel w v s : keyword w v s <> OutOfFuel.
Proof.
  revert s. induction w as [|c w IH]; simpl; intros s; [discriminate|].
  destruct s as [|c' s']; [discriminate|].
  destruct (Ascii.eqb c' c); [apply IH|discriminate].
Qed.

Section ContainerFuel.

Variable value : string -> parsed JsValue.
Hypothesis value_shrinks : shrinks value.

Lemma elements_shrinks n : shrinks (elements value n).
Proof.
  induction n as [|n IH]; intros s vs r; simpl; [discriminate|].
  intros H. apply andThen_Parsed in H as (v & r0 & Hv & H).
  apply value_shrinks in Hv.
  pose proof (skip_ws_length r0) as Hws.
  destruct (skip_ws r0) as [|c rest'] eqn:E; [discriminate|]. simpl in Hws.
  destruct (Ascii.eqb c ",").
  - apply andThen_Parsed in H as (vs' & r1 & H1 & [= _ <-]).
    apply IH in H1. pose proof (skip_ws_length rest'). lia.
  - destruct (Ascii.eqb c "]"); [|discriminate].
    injection H as _ <-. lia.
Qed.

Lemma member_shrinks : shrinks (member value).
Proof.
  intros s kv r. unfold member.
  destruct s as [|q rest]; [discriminate|].
  destruct (Ascii.eqb q dquote); [|discriminate].
  intros H. apply andThen_Parsed in H as (k & r1 & Hk & H).
  apply string_literal_shrinks in Hk.
  pose proof (skip_ws_length r1) as Hws.
  destruct (skip_ws r1) as [|c rest2] eqn:E; [discriminate|]. simpl in Hws.
  destruct (Ascii.eqb c ":"); [|discriminate].
  apply andThen_Parsed in H as (v & r2 & Hv & [= _ <-]).
  apply value_shrinks in Hv. pose proof (skip_ws_length rest2). simpl. lia.
Qed.

Lemma members_shrinks n : shrinks (members value n).
Proof.
  induction n as [|n IH]; intros s vs r; simpl; [discriminate|].
  intros H. apply andThen_Parsed in H as (v & r0 & Hv & H).
  apply member_shrinks in Hv.
  pose proof (skip_ws_length r0) as Hws.
  destruct (skip_ws r0) as [|c rest'] eqn:E; [discriminate|]. simpl in Hws.
  destruct (Ascii.eqb c ",").
  - apply andThen_Parsed in H as (vs' & r1 & H1 & [= _ <-]).
    apply IH in H1. pose proof (skip_ws_length rest'). lia.
  - destruct (Ascii.eqb c "}"); [|discriminate].
    injection H as _ <-. lia.
Qed.

Variable bound : nat.
Hypothesis value_fueled : fueled value bound.

Lemma elements_fuel n s :
  String.length s < n -> String.length s < bound -> elements value n s <> OutOfFuel.
Proof.
  revert s. induction n as [|n IH]; intros s Hn Hb; [lia|]. simpl.
  intros H. apply andThen_OutOfFuel in H as [H|(v & r0 & Hv & H)].
  { revert H. now apply value_fueled. }
  apply value_shrinks in Hv.
  pose proof (skip_ws_length r0) as Hws.
  destruct (skip_ws r0) as [|c rest'] eqn:E; [discriminate|]. simpl in Hws.
  destruct (Ascii.eqb c ",").
  - apply andThen_OutOfFuel in H as [H|(vs' & r1 & _ & H)]; [|discriminate].
    revert H. pose proof (skip_ws_length rest'). apply IH; lia.
  - destruct (Ascii.eqb c "]"); discriminate.
Qed.

Lemma member_fuel s : String.length s < bound -> member value s <> OutOfFuel.
Proof.
  intros Hb. unfold member.
  destruct s as [|q rest]; [discriminate|].
  destruct (Ascii.eqb q dquote); [|discriminate].
  intros H. apply andThen_OutOfFuel in H as [H|(k & r1 & Hk & H)].
  { revert H. apply string_literal_fuel. }
  apply string_literal_shrinks in Hk.
  pose proof (skip_ws_length r1) as Hws.
  destruct (skip_ws r1) as [|c rest2] eqn:E; [discriminate|]. simpl in Hws.
  destruct (Ascii.eqb c ":"); [|discriminate].
  apply andThen_OutOfFuel in H as [H|(v & r2 & _ & H)]; [|discriminate].
  revert H. apply value_fueled. pose proof (skip_ws_length rest2).
  simpl in Hb. lia.
Qed.

Lemma members_fuel n s :
  String.length s < n -> String.length s < bound -> members value n s <> OutOfFuel.
Proof.
  revert s. induction n as [|n IH]; intros s Hn Hb; [lia|]. simpl.
  intros H. apply andThen_OutOfFuel in H as [H|(v & r0 & Hv & H)].
  { revert H. now apply member_fuel. }
  apply member_shrinks in Hv.
  pose proof (skip_ws_length r0) as Hws.
  destruct (skip_ws r0) as [|c rest'] eqn:E; [discriminate|]. simpl in Hws.
  destruct (Ascii.eqb c ",").
  - apply andThen_OutOfFuel in H as [H|(vs' & r1 & _ & H)]; [|discriminate].
    revert H. pose proof (skip_ws_length rest'). apply IH; lia.
  - destruct (Ascii.eqb c "}"); discriminate.
Qed.

End ContainerFuel.

Lemma parse_value_shrinks fuel : shrinks (parse_value fuel).
Proof.
  induction fuel as [|fuel IH]; intros s v r; [discriminate|].
  cbn [parse_value].
  destruct s as [|c rest]; [discriminate|].
  destruct (Ascii.eqb c "{").
  { pose proof (skip_ws_length rest) as Hws.
    destruct (skip_ws rest) as [|c' rest'] eqn:E; [discriminate|]. simpl in Hws.
    destruct (Ascii.eqb c' "}").
    - intros [= _ <-]. simpl. lia.
    - intros H. apply andThen_Parsed in H as (ms & r0 & H0 & [= _ <-]).
      apply (members_shrinks _ IH) in H0. simpl in *. lia. }
  destruct (Ascii.eqb c "[").
  { pose proof (skip_ws_length rest) as Hws.
    destruct (skip_ws rest) as [|c' rest'] eqn:E; [discriminate|]. simpl in Hws.
    destruct (Ascii.eqb c' "]").
    - intros [= _ <-]. simpl. lia.
    - intros H. apply andThen_Parsed in H as (ms & r0 & H0 & [= _ <-]).
      apply (elements_shrinks _ IH) in H0. simpl in *. lia. }
  destruct (Ascii.eqb c dquote).
  { intros H. apply andThen_Parsed in H as (k & r0 & H0 & [= _ <-]).
    apply string_literal_shrinks in H0. simpl. lia. }
  destruct (Ascii.eqb c "t").
  { intros H. apply keyword_shrinks in H. simpl. lia. }
  destruct (Ascii.eqb c "f").
  { intros H. apply keyword_shrinks in H. simpl. lia. }
  destruct (Ascii.eqb c "n").
  { intros H. apply keyword_shrinks in H. simpl. lia. }
  destruct (Ascii.eqb c "-" || is_digit c)%bool; [|discriminate].
  apply parse_number_shrinks.
Qed.

(** The recursion never runs out of fuel on a text shorter than the fuel:
    a failure of [JSON_parse] is a [SyntaxError]. *)
Lemma parse_value_fuel fuel : fueled (parse_value fuel) fuel.
Proof.
  induction fuel as [|fuel IH]; intros s Hs; [lia|]. cbn [parse_value].
  destruct s as [|c rest]; [discriminate|]. simpl in Hs.
  destruct (Ascii.eqb c "{").
  { pose proof (skip_ws_length rest) as Hws.
    destruct (skip_ws rest) as [|c' rest'] eqn:E; [discriminate|].
    destruct (Ascii.eqb c' "}"); [discriminate|].
    intros H. apply andThen_OutOfFuel in H as [H|(ms & r0 & _ & H)]; [|discriminate].
    revert H. apply (members_fuel _ (parse_value_shrinks fuel) fuel IH); lia. }
  destruct (Ascii.eqb c "[").
  { pose proof (skip_ws_length rest) as Hws.
    destruct (skip_ws rest) as [|c' rest'] eqn:E; [discriminate|].
    destruct (Ascii.eqb c' "]"); [discriminate|].
    intros H. apply andThen_OutOfFuel in H as [H|(ms & r0 & _ & H)]; [|discriminate].
    revert H. apply (elements_fuel _ (parse_value_shrinks fuel) fuel IH); lia. }
  destruct (Ascii.eqb c dquote).
  { intros H. apply andThen_OutOfFuel in H as [H|(k & r0 & _ & H)]; [|discriminate].
    revert H. apply string_literal_fuel. }
  destruct (Ascii.eqb c "t"); [apply keyword_fuel|].
  destruct (Ascii.eqb c "f"); [apply keyword_fuel|].
  destruct (Ascii.eqb c "n"); [apply keyword_fuel|].
  destruct (Ascii.eqb c "-" || is_digit c)%bool; [|discriminate].
  apply parse_number_fuel.
Qed.

(** [JSON_parse] fails only on a [SyntaxError]. *)
Lemma JSON_parse_never_out_of_fuel text :
  parse_value (S (String.length text)) (skip_ws text) <> OutOfFuel.
Proof.
  apply parse_value_fuel. pose proof (skip_ws_length text). lia.
Qed.

End ParserFuel.

(** ** Every value has a text that [JSON.parse] reads back *)

Section RenderParse.

Lemma append_length (a b : string) :
  String.length (a ++ b) = (String.length a + String.length b)%nat.
Proof. induction a as [|c a IH]; simpl; [reflexivity|now rewrite IH]. Qed.

Lemma append_assoc (a b c : string) : ((a ++ b) ++ c = a ++ (b ++ c)).
Proof. induction a as [|x a IH]; simpl; [reflexivity|now rewrite IH]. Qed.

Lemma append_empty (a : string) : a ++ "" = a.
Proof. induction a as [|x a IH]; simpl; [reflexivity|now rewrite IH]. Qed.

Lemma span_digits_uint u rest :
  stops_number rest ->
  span_digits (NilEmpty.string_of_uint u ++ rest) = (NilEmpty.string_of_uint u, rest).
Proof.
  intros Hrest. induction u; simpl;
    try (rewrite IHu; reflexivity).
  destruct rest as [|c r]; simpl; [reflexivity|].
  simpl in Hrest. now rewrite Hrest.
Qed.

Lemma to_uint_normal n : Decimal.unorm (N.to_uint n) = N.to_uint n.
Proof.
  rewrite <- (DecimalN.Unsigned.of_to n) at 2.
  symmetry. apply DecimalN.Unsigned.to_of.
Qed.

Lemma int_ok_uint u :
  Decimal.unorm u = u -> int_ok (NilEmpty.string_of_uint u) = true.
Proof.
  unfold Decimal.unorm. intros H.
  destruct (Decimal.nzhead u) eqn:E.
  - subst u. reflexivity.
  - exfalso. subst u. revert E. apply DecimalFacts.nzhead_nonzero.
  - subst u; simpl; destruct (NilEmpty.string_of_uint u0); reflexivity.
  - subst u; simpl; destruct (NilEmpty.string_of_uint u0); reflexivity.
  - subst u; simpl; destruct (NilEmpty.string_of_uint u0); reflexivity.
  - subst u; simpl; destruct (NilEmpty.string_of_uint u0); reflexivity.
  - subst u; simpl; destruct (NilEmpty.string_of_uint u0); reflexivity.
  - subst u; simpl; destruct (NilEmpty.string_of_uint u0); reflexivity.
  - subst u; simpl; destruct (NilEmpty.string_of_uint u0); reflexivity.
  - subst u; simpl; destruct (NilEmpty.string_of_uint u0); reflexivity.
  - subst u; simpl; destruct (NilEmpty.string_of_uint u0); reflexivity.
Qed.

Lemma render_nat_span n rest :
  stops_number rest -> span_digits (render_nat n ++ rest) = (render_nat n, rest).
Proof. apply span_digits_uint. Qed.

Lemma render_nat_int_ok n : int_ok (render_nat n) = true.
Proof. apply int_ok_uint, to_uint_normal. Qed.

Lemma render_nat_value n : (0 <= n)%Z -> digits_value (render_nat n) = n.
Proof.
  intros Hn. unfold digits_value, render_nat.
  rewrite NilEmpty.usu. unfold Z.of_uint.
  change (Pos.of_uint (N.to_uint (Z.to_N n))) with (N.of_uint (N.to_uint (Z.to_N n))).
  rewrite DecimalN.Unsigned.of_to. now apply Z2N.id.
Qed.

Lemma render_nat_nonempty n : is_empty (render_nat n) = false.
Proof.
  pose proof (render_nat_int_ok n) as H.
  destruct (render_nat n); [discriminate|reflexivity].
Qed.

(** The first character of the digits of a number is a digit. *)
Lemma render_nat_head n :
  exists c r, render_nat n = String c r /\ is_digit c = true.
Proof.
  unfold render_nat.
  pose proof (to_uint_normal (Z.to_N n)) as H.
  pose proof (DecimalFacts.unorm_nonnil (N.to_uint (Z.to_N n))) as Hnn. rewrite H in Hnn.
  destruct (N.to_uint (Z.to_N n)); [contradiction| | | | | | | | | |];
    simpl; eexists _, _; (split; [reflexivity|reflexivity]).
Qed.

Lemma is_digit_not_minus c : is_digit c = true -> Ascii.eqb c "-" = false.
Proof.
  destruct c as [[] [] [] [] [] [] [] []]; vm_compute; intros; congruence.
Qed.

Lemma is_digit_not_plus c : is_digit c = true -> Ascii.eqb c "+" = false.
Proof.
  destruct c as [[] [] [] [] [] [] [] []]; vm_compute; intros; congruence.
Qed.

(** The sign and the digits of an integer, as [parse_number] splits them. *)
Lemma render_int_split z rest :
  exists r,
    render_int z ++ rest = (if (z <? 0)%Z then String "-" r else r) /\
    r = render_nat (Z.abs z) ++ rest.
Proof.
  unfold render_int. destruct (Z.ltb_spec z 0) as [Hneg|Hpos].
  - eexists. split; [reflexivity|]. now rewrite Z.abs_neq by lia.
  - eexists. split; [reflexivity|]. now rewrite Z.abs_eq by lia.
Qed.

Lemma parse_number_render m e rest :
  stops_number rest ->
  parse_number (render_number m e ++ rest) = Parsed (JNumber m e) rest.
Proof.
  intros Hrest. unfold render_number. rewrite append_assoc.
  cbn [append].
  destruct (render_int_split m (String "e" (render_int e ++ rest)))
    as (rm & Em & Hrm).
  destruct (render_int_split e rest) as (re & Ee & Hre).
  rewrite Em. clear Em.
  destruct (render_nat_head (Z.abs m)) as (cm & tm & Hm & Dm).
  destruct (render_nat_head (Z.abs e)) as (ce & te & He & De).
  assert (Hsign :
    match (if (m <? 0)%Z then String "-" rm else rm) with
    | String c r0 => if Ascii.eqb c "-" then (true, r0)
                     else (false, if (m <? 0)%Z then String "-" rm else rm)
    | EmptyString => (false, if (m <? 0)%Z then String "-" rm else rm)
    end = ((m <? 0)%Z, rm)).
  { destruct (m <? 0)%Z; [reflexivity|].
    rewrite Hrm, Hm. cbn [append]. now rewrite (is_digit_not_minus _ Dm). }
  unfold parse_number. rewrite Hsign. clear Hsign.
  rewrite Hrm.
  rewrite render_nat_span by reflexivity.
  rewrite render_nat_int_ok. cbn [negb].
  change (Ascii.eqb "e" ".") with false. cbv iota. cbn [negb].
  change (Ascii.eqb "e" "e" || Ascii.eqb "e" "E")%bool with true. cbv iota.
  rewrite Ee. clear Ee.
  assert (Hesign :
    match (if (e <? 0)%Z then String "-" re else re) with
    | String c' r' =>
        if Ascii.eqb c' "-" then (true, r')
        else if Ascii.eqb c' "+" then (false, r')
             else (false, if (e <? 0)%Z then String "-" re else re)
    | EmptyString => (false, if (e <? 0)%Z then String "-" re else re)
    end = ((e <? 0)%Z, re)).
  { destruct (e <? 0)%Z; [reflexivity|].
    rewrite Hre, He. cbn [append].
    now rewrite (is_digit_not_minus _ De), (is_digit_not_plus _ De). }
  rewrite Hesign. clear Hesign.
  rewrite Hre. rewrite render_nat_span by exact Hrest.
  rewrite render_nat_nonempty. cbn [negb].
  rewrite append_empty.
  rewrite !render_nat_value by lia.
  cbn [String.length Z.of_nat]. rewrite Z.sub_0_r.
  f_equal. f_equal.
  - destruct (Z.ltb_spec m 0); lia.
  - destruct (Z.ltb_spec e 0); lia.
Qed.

Lemma hex4_control c :
  (N_of_ascii c <? 32)%N = true ->
  hex4 "0" "0" (hex_digit (N_of_ascii c / 16)) (hex_digit (N_of_ascii c mod 16))
  = Some (N_of_ascii c).
Proof.
  destruct c as [[] [] [] [] [] [] [] []]; vm_compute; intros; congruence.
Qed.

Lemma string_items_render s rest :
  string_items (render_chars s ++ String dquote rest) = Parsed (items_of s) rest.
Proof.
  induction s as [|c s IH]; [reflexivity|].
  cbn [render_chars items_of]. rewrite append_assoc.
  unfold render_char, item_of.
  destruct (Ascii.eqb c dquote) eqn:Eq.
  { apply Ascii.eqb_eq in Eq. subst c. cbn [append].
    change (string_items
              (String "\" (String dquote (render_chars s ++ String dquote rest))))
      with (andThen (string_items (render_chars s ++ String dquote rest))
                    (fun l r => Parsed (Raw dquote :: l) r)).
    now rewrite IH. }
  destruct (Ascii.eqb c "\") eqn:Eb.
  { apply Ascii.eqb_eq in Eb. subst c. cbn [append].
    change (string_items
              (String "\" (String "\" (render_chars s ++ String dquote rest))))
      with (andThen (string_items (render_chars s ++ String dquote rest))
                    (fun l r => Parsed (Raw "\" :: l) r)).
    now rewrite IH. }
  destruct (N_of_ascii c <? 32)%N eqn:Ec.
  { cbn [append].
    change (string_items
              (String "\" (String "u" (String "0" (String "0"
                 (String (hex_digit (N_of_ascii c / 16))
                    (String (hex_digit (N_of_ascii c mod 16))
                       (render_chars s ++ String dquote rest))))))))
      with (match hex4 "0" "0" (hex_digit (N_of_ascii c / 16))
                       (hex_digit (N_of_ascii c mod 16)) with
            | Some cu =>
                andThen (string_items (render_chars s ++ String dquote rest))
                        (fun l r => Parsed (Esc cu :: l) r)
            | None => SyntaxError
            end).
    now rewrite (hex4_control c Ec), IH. }
  cbn [append string_items]. rewrite Eq, Eb, Ec. now rewrite IH.
Qed.

Lemma string_of_items_of s : string_of_items (items_of s) = s.
Proof.
  induction s as [|c s IH]; [reflexivity|].
  cbn [items_of]. unfold item_of at 1.
  destruct (N_of_ascii c <? 32)%N eqn:Ec; cbn [string_of_items]; [|now rewrite IH].
  assert (Hhi : is_high_surrogate (N_of_ascii c) = false).
  { apply N.ltb_lt in Ec. unfold is_high_surrogate.
    apply andb_false_iff. left. apply N.leb_gt. lia. }
  assert (Hutf : utf8 (N_of_ascii c) = String c EmptyString).
  { apply N.ltb_lt in Ec. unfold utf8.
    replace (N_of_ascii c <? 128)%N with true
      by (symmetry; apply N.ltb_lt; lia).
    unfold byte. now rewrite ascii_N_embedding. }
  rewrite Hhi, Hutf. cbn [andb].
  destruct (items_of s) as [|[a|lo] l']; rewrite <- IH; reflexivity.
Qed.

Lemma string_literal_render s rest :
  string_literal (render_chars s ++ String dquote rest) = Parsed s rest.
Proof.
  unfold string_literal. rewrite string_items_render. cbn [andThen].
  now rewrite string_of_items_of.
Qed.

Lemma value_start_facts c :
  value_start c = true ->
  is_ws c = false /\ Ascii.eqb c "]" = false /\ Ascii.eqb c "}" = false.
Proof.
  destruct c as [[] [] [] [] [] [] [] []]; vm_compute; intros; repeat split; congruence.
Qed.

Lemma number_start_facts c :
  (Ascii.eqb c "-" || is_digit c)%bool = true ->
  Ascii.eqb c "{" = false /\ Ascii.eqb c "[" = false /\ Ascii.eqb c dquote = false /\
  Ascii.eqb c "t" = false /\ Ascii.eqb c "f" = false /\ Ascii.eqb c "n" = false.
Proof.
  destruct c as [[] [] [] [] [] [] [] []]; vm_compute; intros; repeat split; congruence.
Qed.

Lemma render_int_head z rest :
  exists c r, render_int z ++ rest = String c r /\
              (Ascii.eqb c "-" || is_digit c)%bool = true.
Proof.
  unfold render_int. destruct (z <? 0)%Z.
  - eexists _, _. split; reflexivity.
  - destruct (render_nat_head z) as (c & r & -> & Hd).
    eexists _, _. split; [reflexivity|]. rewrite Hd. apply orb_true_r.
Qed.

Lemma render_head v rest :
  is_json v = true ->
  exists c r, render v ++ rest = String c r /\ value_start c = true.
Proof.
  destruct v as [| |[]|m e|s|items|props]; cbn [is_json render];
    try discriminate; intros _;
    try (eexists _, _; split; reflexivity).
  unfold render_number. rewrite append_assoc.
  destruct (render_int_head m (String "e" (render_int e) ++ rest)) as (c & r & -> & Hc).
  eexists _, _. split; [reflexivity|].
  destruct (number_start_facts c Hc) as (H1 & H2 & H3 & H4 & H5 & H6).
  unfold value_start. rewrite H1, H2, H3, H4, H5, H6. exact Hc.
Qed.

Lemma skip_ws_start c r : value_start c = true -> skip_ws (String c r) = String c r.
Proof.
  intros H. destruct (value_start_facts c H) as (Hws & _). simpl. now rewrite Hws.
Qed.

Lemma skip_ws_render v rest :
  is_json v = true -> skip_ws (render v ++ rest) = render v ++ rest.
Proof.
  intros Hv. destruct (render_head v rest Hv) as (c & r & -> & Hc).
  now apply skip_ws_start.
Qed.

Section ContainerRender.

Variable value : string -> parsed JsValue.

Lemma elements_render items :
  forall n rest,
    items <> [] ->
    Forall (reads value) items ->
    Forall (fun x => is_json x = true) items ->
    (List.length items <= n)%nat ->
    elements value n (join_commas (map render items) ++ String "]" rest)
    = Parsed items rest.
Proof.
  induction items as [|x items IH]; intros n rest Hne Hread Hjson Hn;
    [contradiction|].
  destruct n as [|n]; [simpl in Hn; lia|].
  inversion Hread as [|? ? Hx Hread']; subst.
  inversion Hjson as [|? ? Jx Hjson']; subst.
  destruct items as [|y items].
  - cbn [map join_commas elements].
    rewrite (Hx (String "]" rest)) by reflexivity.
    reflexivity.
  - change (join_commas (map render (x :: y :: items)))
      with (render x ++ String "," (join_commas (map render (y :: items)))).
    rewrite append_assoc. cbn [append elements].
    rewrite (Hx (String "," (join_commas (map render (y :: items)) ++ String "]" rest)))
      by reflexivity.
    cbn [andThen].
    change (skip_ws (String "," (join_commas (map render (y :: items)) ++ String "]" rest)))
      with (String "," (join_commas (map render (y :: items)) ++ String "]" rest)).
    change (Ascii.eqb "," ",") with true. cbv iota.
    assert (Hskip : skip_ws (join_commas (map render (y :: items)) ++ String "]" rest)
                    = join_commas (map render (y :: items)) ++ String "]" rest).
    { inversion Hjson' as [|? ? Jy _]; subst.
      destruct items as [|z items'].
      - apply skip_ws_render, Jy.
      - change (join_commas (map render (y :: z :: items')))
          with (render y ++ String "," (join_commas (map render (z :: items')))).
        rewrite append_assoc. apply skip_ws_render, Jy. }
    rewrite Hskip.
    rewrite (IH n rest); [reflexivity|discriminate|assumption|assumption|].
    simpl in Hn |- *. lia.
Qed.

Lemma member_render k x rest :
  reads value x -> is_json x = true -> stops_number rest ->
  member value (render_member (k, x) ++ rest) = Parsed (k, x) rest.
Proof.
  intros Hx Jx Hrest. unfold render_member, render_string.
  cbn [append]. rewrite !append_assoc. cbn [append].
  unfold member. change (Ascii.eqb dquote dquote) with true. cbv iota.
  rewrite string_literal_render. cbn [andThen].
  change (skip_ws (String ":" (render x ++ rest)))
    with (String ":" (render x ++ rest)).
  change (Ascii.eqb ":" ":") with true. cbv iota.
  rewrite (skip_ws_render x rest Jx).
  now rewrite (Hx rest Hrest).
Qed.

Lemma render_member_head kv rest :
  exists r, render_member kv ++ rest = String dquote r.
Proof. destruct kv as [k x]. eexists. reflexivity. Qed.

Lemma members_render props :
  forall n rest,
    props <> [] ->
    Forall (fun kv => reads value (snd kv)) props ->
    Forall (fun kv => is_json (snd kv) = true) props ->
    (List.length props <= n)%nat ->
    members value n (join_commas (map render_member props) ++ String "}" rest)
    = Parsed props rest.
Proof.
  induction props as [|[k x] props IH]; intros n rest Hne Hread Hjson Hn;
    [contradiction|].
  destruct n as [|n]; [simpl in Hn; lia|].
  inversion Hread as [|? ? Hx Hread']; subst.
  inversion Hjson as [|? ? Jx Hjson']; subst.
  simpl in Hx, Jx.
  destruct props as [|kv props].
  - cbn [map join_commas members].
    rewrite (member_render k x (String "}" rest) Hx Jx) by reflexivity.
    reflexivity.
  - change (join_commas (map render_member ((k, x) :: kv :: props)))
      with (render_member (k, x)
            ++ String "," (join_commas (map render_member (kv :: props)))).
    rewrite append_assoc. cbn [append members].
    rewrite (member_render k x
               (String "," (join_commas (map render_member (kv :: props))
                            ++ String "}" rest)) Hx Jx) by reflexivity.
    cbn [andThen].
    change (skip_ws (String "," (join_commas (map render_member (kv :: props))
                                 ++ String "}" rest)))
      with (String "," (join_commas (map render_member (kv :: props))
                        ++ String "}" rest)).
    change (Ascii.eqb "," ",") with true. cbv iota.
    assert (Hskip : skip_ws (join_commas (map render_member (kv :: props))
                             ++ String "}" rest)
                    = join_commas (map render_member (kv :: props)) ++ String "}" rest).
    { destruct props as [|kv' props'].
      - cbn [map join_commas].
        destruct (render_member_head kv (String "}" rest)) as (r & ->). reflexivity.
      - change (join_commas (map render_member (kv :: kv' :: props')))
          with (render_member kv
                ++ String "," (join_commas (map render_member (kv' :: props')))).
        rewrite append_assoc.
        destruct (render_member_head kv
                    (String "," (join_commas (map render_member (kv' :: props')))
                     ++ String "}" rest)) as (r & ->).
        reflexivity. }
    rewrite Hskip.
    rewrite (IH n rest); [reflexivity|discriminate|assumption|assumption|].
    simpl in Hn |- *. lia.
Qed.

End ContainerRender.

Lemma existsb_eqb_In k l : existsb (String.eqb k) l = true <-> In k l.
Proof.
  rewrite existsb_exists. split.
  - intros (x & Hx & E). apply String.eqb_eq in E. now subst.
  - intros H. exists k. split; [assumption|apply String.eqb_refl].
Qed.

Lemma distinct_NoDup l : distinct l = true <-> NoDup l.
Proof.
  induction l as [|k l IH]; simpl.
  - split; [constructor|reflexivity].
  - rewrite andb_true_iff, negb_true_iff, IH. split.
    + intros [Hk Hl]. constructor; [|assumption].
      intros Hin. apply existsb_eqb_In in Hin. congruence.
    + intros H. inversion H as [|? ? Hk Hl]; subst. split; [|assumption].
      destruct (existsb (String.eqb k) l) eqn:E; [|reflexivity].
      apply existsb_eqb_In in E. contradiction.
Qed.

Lemma obj_set_fresh k v p : ~ In k (keys p) -> obj_set k v p = (p ++ [(k, v)])%list.
Proof.
  induction p as [|[k' v'] p IH]; simpl; [reflexivity|].
  intros H. destruct (String.eqb_spec k k') as [->|Hne]; [tauto|].
  rewrite IH; [reflexivity|tauto].
Qed.

Lemma fold_obj_set ms :
  forall acc, NoDup (keys (acc ++ ms)) ->
    fold_left (fun o kv => obj_set (fst kv) (snd kv) o) ms acc = (acc ++ ms)%list.
Proof.
  induction ms as [|[k v] ms IH]; intros acc Hnd; simpl.
  - now rewrite List.app_nil_r.
  - rewrite obj_set_fresh.
    + rewrite IH; rewrite <- List.app_assoc; [reflexivity|exact Hnd].
    + unfold keys in *. rewrite map_app in Hnd. simpl in Hnd.
      apply NoDup_remove_2 in Hnd. intros Hin. apply Hnd.
      apply in_or_app. now left.
Qed.

Lemma object_of_members_distinct props :
  distinct (keys props) = true -> object_of_members props = props.
Proof.
  intros H. apply distinct_NoDup in H.
  unfold object_of_members. now rewrite fold_obj_set.
Qed.

Lemma size_positive v : (1 <= size v)%nat.
Proof. destruct v; simpl; lia. Qed.

Lemma list_sum_bounds {A} (f : A -> nat) l :
  (forall x, 1 <= f x)%nat ->
  (List.length l <= list_sum (map f l))%nat /\
  forall x, In x l -> (f x <= list_sum (map f l))%nat.
Proof.
  intros Hf. induction l as [|a l [IH1 IH2]]; simpl.
  - split; [lia|tauto].
  - pose proof (Hf a). split; [lia|].
    intros x [<-|Hx]; [lia|]. specialize (IH2 x Hx). lia.
Qed.

(** Reading back the text of a value of [JSON.parse] gives the value, with
    fuel for its nodes and whatever follows that cannot continue a number. *)
Lemma parse_value_render v :
  is_json v = true ->
  forall fuel, (size v <= fuel)%nat -> reads (parse_value fuel) v.
Proof.
  induction v as [| |b|m e|s|items IH|props IH] using JsValue_ind;
    intros Hjson fuel Hfuel rest Hrest.
  - discriminate.
  - destruct fuel; [simpl in Hfuel; lia|]. reflexivity.
  - destruct fuel; [simpl in Hfuel; lia|]. destruct b; reflexivity.
  - destruct fuel; [simpl in Hfuel; lia|].
    cbn [render].
    destruct (render_head (JNumber m e) rest eq_refl) as (c & r & E & _).
    cbn [render] in E.
    pose proof (parse_number_render m e rest Hrest) as Hnum.
    unfold render_number in *. rewrite append_assoc in *.
    destruct (render_int_head m (String "e" (render_int e) ++ rest))
      as (c' & r' & E' & Hc).
    rewrite E' in *.
    destruct (number_start_facts c' Hc) as (H1 & H2 & H3 & H4 & H5 & H6).
    cbn [parse_value]. now rewrite H1, H2, H3, H4, H5, H6, Hc.
  - destruct fuel; [simpl in Hfuel; lia|].
    cbn [render]. unfold render_string. cbn [append]. rewrite append_assoc.
    cbn [append parse_value].
    change (Ascii.eqb dquote "{") with false.
    change (Ascii.eqb dquote "[") with false.
    change (Ascii.eqb dquote dquote) with true. cbv iota.
    now rewrite string_literal_render.
  - destruct fuel; [simpl in Hfuel; lia|].
    cbn [is_json] in Hjson. rewrite forallb_forall in Hjson.
    cbn [size] in Hfuel.
    destruct (list_sum_bounds size items size_positive) as [Hlen Hsize].
    cbn [render append parse_value].
    change (Ascii.eqb "[" "{") with false.
    change (Ascii.eqb "[" "[") with true. cbv iota.
    destruct items as [|x items].
    { reflexivity. }
    rewrite append_assoc. cbn [append].
    assert (Hhead : exists c r,
               join_commas (map render (x :: items)) ++ String "]" rest = String c r
               /\ value_start c = true).
    { destruct items as [|y items'].
      - apply render_head, Hjson. now left.
      - change (join_commas (map render (x :: y :: items')))
          with (render x ++ String "," (join_commas (map render (y :: items')))).
        rewrite append_assoc. apply render_head, Hjson. now left. }
    destruct Hhead as (c & r & Ehead & Hc).
    rewrite Ehead. rewrite (skip_ws_start c r Hc).
    destruct (value_start_facts c Hc) as (_ & Hnb & _). rewrite Hnb.
    rewrite <- Ehead.
    rewrite (elements_render (parse_value fuel) (x :: items) fuel rest).
    + reflexivity.
    + discriminate.
    + rewrite Forall_forall in IH |- *. intros y Hy.
      apply IH; [assumption|now apply Hjson|].
      specialize (Hsize y Hy). lia.
    + rewrite Forall_forall. exact Hjson.
    + lia.
  - destruct fuel; [simpl in Hfuel; lia|].
    cbn [is_json] in Hjson. apply andb_true_iff in Hjson as [Hkeys Hjson].
    rewrite forallb_forall in Hjson.
    cbn [size] in Hfuel.
    destruct (list_sum_bounds (fun kv : string * JsValue =>
                                 match kv with (_, x) => size x end) props)
      as [Hlen Hsize].
    { intros [k x]. apply size_positive. }
    cbn [render append parse_value].
    change (Ascii.eqb "{" "{") with true. cbv iota.
    change (map (fun kv : string * JsValue =>
                   match kv with
                   | (k, x) => render_string k ++ String ":" (render x)
                   end) props)
      with (map render_member props).
    destruct props as [|kv props].
    { reflexivity. }
    rewrite append_assoc. cbn [append].
    assert (Hhead : exists r,
               join_commas (map render_member (kv :: props)) ++ String "}" rest
               = String dquote r).
    { destruct props as [|kv' props'].
      - apply render_member_head.
      - change (join_commas (map render_member (kv :: kv' :: props')))
          with (render_member kv
                ++ String "," (join_commas (map render_member (kv' :: props')))).
        rewrite append_assoc. apply render_member_head. }
    destruct Hhead as (r & Ehead).
    rewrite Ehead.
    change (skip_ws (String dquote r)) with (String dquote r).
    change (Ascii.eqb dquote "}") with false. cbv iota.
    rewrite <- Ehead.
    rewrite (members_render (parse_value fuel) (kv :: props) fuel rest).
    + cbn [andThen]. now rewrite object_of_members_distinct.
    + discriminate.
    + rewrite Forall_forall in IH |- *. intros [k y] Hy. simpl.
      apply (IH (k, y) Hy); [exact (Hjson (k, y) Hy)|].
      specialize (Hsize (k, y) Hy). cbv beta iota in Hsize. cbn [snd]. lia.
    + rewrite Forall_forall. intros [k y] Hy. exact (Hjson (k, y) Hy).
    + lia.
Qed.

Lemma join_commas_length (l : list string) :
  (list_sum (map String.length l) <= String.length (join_commas l))%nat.
Proof.
  induction l as [|x [|y l] IH]; simpl in *; try lia.
  rewrite append_length. simpl. lia.
Qed.

Lemma list_sum_le {A} (f g : A -> nat) l :
  Forall (fun x => f x <= g x)%nat l ->
  (list_sum (map f l) <= list_sum (map g l))%nat.
Proof. induction 1; simpl; lia. Qed.

Lemma size_le_length v : (size v <= String.length (render v))%nat.
Proof.
  induction v as [| |b|m e|s|items IH|props IH] using JsValue_ind;
    try (simpl; lia).
  - destruct b; simpl; lia.
  - destruct (render_head (JNumber m e) EmptyString eq_refl) as (c & r & E & _).
    rewrite append_empty in E. rewrite E. simpl. lia.
  - cbn [size render String.length]. rewrite append_length.
    pose proof (join_commas_length (map render items)) as H.
    rewrite map_map in H.
    pose proof (list_sum_le size (fun x => String.length (render x)) items IH).
    lia.
  - cbn [size render String.length]. rewrite append_length.
    change (map (fun kv : string * JsValue =>
                   match kv with
                   | (k, x) => render_string k ++ String ":" (render x)
                   end) props)
      with (map render_member props).
    pose proof (join_commas_length (map render_member props)) as H.
    rewrite map_map in H.
    assert (Hle : (list_sum (map (fun kv : string * JsValue =>
                                    match kv with (_, x) => size x end) props)
                   <= list_sum (map (fun kv => String.length (render_member kv)) props))%nat).
    { apply list_sum_le. rewrite Forall_forall in IH |- *.
      intros [k x] Hin. specialize (IH (k, x) Hin). simpl in IH.
      unfold render_member. rewrite append_length. simpl. lia. }
    lia.
Qed.

(** Every value [JSON.parse] can return has a text that [JSON.parse] reads
    back as that value. *)
Lemma JSON_parse_render v : is_json v = true -> JSON_parse (render v) = Some v.
Proof.
  intros Hv. unfold JSON_parse.
  pose proof (skip_ws_render v EmptyString Hv) as Hskip.
  rewrite append_empty in Hskip. rewrite Hskip.
  pose proof (parse_value_render v Hv (S (String.length (render v)))) as H.
  specialize (H ltac:(pose proof (size_le_length v); lia) EmptyString I).
  rewrite append_empty in H. rewrite H. reflexivity.
Qed.

End RenderParse.

(** ** [JSON.parse] returns JSON values only *)

Section ParserRange.

Lemma parse_number_json s v r : parse_number s = Parsed v r -> is_json v = true.
Proof.
  unfold parse_number.
  repeat match goal with
         | |- context [let '(_, _) := ?x in _] => destruct x
         | |- context [if ?b then _ else _] => destruct b
         | |- context [match ?x with _ => _ end] => destruct x
         end; try discriminate; intros [= <- _]; reflexivity.
Qed.

Lemma keyword_value w v s v' r : keyword w v s = Parsed v' r -> v' = v.
Proof.
  revert s. induction w as [|c w IH]; simpl; intros s.
  - now intros [= <- _].
  - destruct s as [|c' s']; [discriminate|].
    destruct (Ascii.eqb c' c); [apply IH|discriminate].
Qed.

Lemma keys_obj_set k v o :
  keys (obj_set k v o) = if existsb (String.eqb k) (keys o) then keys o
                         else (keys o ++ [k])%list.
Proof.
  induction o as [|[k' v'] o IH]; simpl; [reflexivity|].
  destruct (String.eqb_spec k k') as [->|Hne]; simpl; [reflexivity|].
  rewrite IH. destruct (existsb (String.eqb k) (keys o)); reflexivity.
Qed.

Lemma distinct_snoc l k :
  distinct l = true -> existsb (String.eqb k) l = false ->
  distinct (l ++ [k]) = true.
Proof.
  intros Hl Hk. apply distinct_NoDup. apply distinct_NoDup in Hl.
  apply NoDup_app; [assumption|repeat constructor; simpl; tauto|].
  intros x Hx [<-|[]]. apply existsb_eqb_In in Hx. congruence.
Qed.

Lemma obj_set_json k v o :
  is_json v = true -> is_json (JObject o) = true ->
  is_json (JObject (obj_set k v o)) = true.
Proof.
  cbn [is_json]. rewrite !andb_true_iff. intros Hv [Hd Hall]. split.
  - rewrite keys_obj_set.
    destruct (existsb (String.eqb k) (keys o)) eqn:E; [assumption|].
    now apply distinct_snoc.
  - clear Hd. induction o as [|[k' v'] o IH]; simpl in *.
    + now rewrite Hv.
    + apply andb_true_iff in Hall as [H1 H2].
      destruct (String.eqb k k'); simpl; rewrite ?Hv, ?H1, ?H2, ?IH; auto.
Qed.

Lemma object_of_members_json ms :
  members_json ms = true -> is_json (JObject (object_of_members ms)) = true.
Proof.
  unfold object_of_members.
  assert (H : forall acc, is_json (JObject acc) = true -> members_json ms = true ->
                is_json (JObject (fold_left (fun o kv => obj_set (fst kv) (snd kv) o)
                                            ms acc)) = true).
  { induction ms as [|[k v] ms IH]; intros acc Hacc Hms; [exact Hacc|].
    simpl in Hms. apply andb_true_iff in Hms as [Hv Hms].
    simpl. apply IH; [|exact Hms]. now apply obj_set_json. }
  intros Hms. now apply H.
Qed.

Section ContainerRange.

Variable value : string -> parsed JsValue.
Hypothesis value_json : forall s v r, value s = Parsed v r -> is_json v = true.

Lemma elements_json n : forall s vs r,
  elements value n s = Parsed vs r -> forallb is_json vs = true.
Proof.
  induction n as [|n IH]; intros s vs r; simpl; [discriminate|].
  intros H. apply andThen_Parsed in H as (v & r0 & Hv & H).
  apply value_json in Hv.
  destruct (skip_ws r0) as [|c rest']; [discriminate|].
  destruct (Ascii.eqb c ",").
  - apply andThen_Parsed in H as (vs' & r1 & H1 & [= <- _]).
    apply IH in H1. simpl. now rewrite Hv, H1.
  - destruct (Ascii.eqb c "]"); [|discriminate].
    injection H as <- _. simpl. now rewrite Hv.
Qed.

Lemma member_json s kv r :
  member value s = Parsed kv r -> is_json (snd kv) = true.
Proof.
  unfold member.
  destruct s as [|q rest]; [discriminate|].
  destruct (Ascii.eqb q dquote); [|discriminate].
  intros H. apply andThen_Parsed in H as (k & r1 & _ & H).
  destruct (skip_ws r1) as [|c rest2]; [discriminate|].
  destruct (Ascii.eqb c ":"); [|discriminate].
  apply andThen_Parsed in H as (v & r2 & Hv & [= <- _]).
  simpl. now apply value_json in Hv.
Qed.

Lemma members_range n : forall s kvs r,
  members value n s = Parsed kvs r -> members_json kvs = true.
Proof.
  induction n as [|n IH]; intros s kvs r; simpl; [discriminate|].
  intros H. apply andThen_Parsed in H as ([k v] & r0 & Hv & H).
  apply member_json in Hv. simpl in Hv.
  destruct (skip_ws r0) as [|c rest']; [discriminate|].
  destruct (Ascii.eqb c ",").
  - apply andThen_Parsed in H as (kvs' & r1 & H1 & [= <- _]).
    apply IH in H1. unfold members_json in *. simpl. now rewrite Hv, H1.
  - destruct (Ascii.eqb c "}"); [|discriminate].
    injection H as <- _. unfold members_json. simpl. now rewrite Hv.
Qed.

End ContainerRange.

Lemma parse_value_json fuel : forall s v r,
  parse_value fuel s = Parsed v r -> is_json v = true.
Proof.
  induction fuel as [|fuel IH]; intros s v r; [discriminate|].
  cbn [parse_value].
  destruct s as [|c rest]; [discriminate|].
  destruct (Ascii.eqb c "{").
  { destruct (skip_ws rest) as [|c' rest']; [discriminate|].
    destruct (Ascii.eqb c' "}").
    - intros [= <- _]. reflexivity.
    - intros H. apply andThen_Parsed in H as (ms & r0 & H0 & [= <- _]).
      apply (members_range _ IH) in H0. now apply object_of_members_json. }
  destruct (Ascii.eqb c "[").
  { destruct (skip_ws rest) as [|c' rest']; [discriminate|].
    destruct (Ascii.eqb c' "]").
    - intros [= <- _]. reflexivity.
    - intros H. apply andThen_Parsed in H as (vs & r0 & H0 & [= <- _]).
      apply (elements_json _ IH) in H0. exact H0. }
  destruct (Ascii.eqb c dquote).
  { intros H. apply andThen_Parsed in H as (k & r0 & _ & [= <- _]). reflexivity. }
  destruct (Ascii.eqb c "t").
  { intros H. apply keyword_value in H. now subst. }
  destruct (Ascii.eqb c "f").
  { intros H. apply keyword_value in H. now subst. }
  destruct (Ascii.eqb c "n").
  { intros H. apply keyword_value in H. now subst. }
  destruct (Ascii.eqb c "-" || is_digit c)%bool; [|discriminate].
  apply parse_number_json.
Qed.

(** What [JSON.parse] returns has no [undefined] inside and no object with
    two properties of one name; with [JSON_parse_render], these values are
    exactly the ones it returns. *)
Lemma JSON_parse_json text v : JSON_parse text = Some v -> is_json v = true.
Proof.
  unfold JSON_parse.
  destruct (parse_value (S (String.length text)) (skip_ws text)) as [v' r| |] eqn:E;
    try discriminate.
  destruct (is_empty (skip_ws r)); [|discriminate].
  intros [= <-]. exact (parse_value_json _ _ _ _ E).
Qed.

End ParserRange.

(** ** Properties of the feed client *)

Example frame_truncated_fails : JSON_parse frame_truncated = None.
Proof. vm_compute. reflexivity. Qed.




(** A frame that [JSON.parse] accepts replaces the snapshot whatever it is:
    the frame [null] resets it to [null]. *)
Example null_frame_replaces_snapshot :
  data live_state = scenario_snapshot /\
  data (deliver live_state (EvMessage 0 "null")) = JNull.
Proof. split; vm_compute; reflexivity. Qed.

(** C4. In every state of the client, when [close] fires on a socket the
    status becomes disconnected ([isConnected] false, [RECONNECTING] in the
    words of the specification), one timer more is pending, which calls
    [connect] after 3000 ms, and the cached snapshot is what it was. *)
Theorem close_schedules_reconnect (st : HookState) (id : nat) :
  let st' := deliver st (EvClose id) in
  isConnected st' = false /\
  status st' = RECONNECTING /\
  timers st' = (timers st ++ [mkTimer cb_connect 3000])%list /\
  data st' = data st.
Proof.
  simpl. unfold status. simpl.
  repeat split. destruct (timers st); reflexivity.
Qed.

(** The scenario of a lost connection: the socket closes, the timer fires and
    a new socket is created, which then opens. *)
Example reconnect_scenario :
  option_map status (run initial [EvEffect; EvOpen 0]) = Some OPEN /\
  option_map status (run initial [EvEffect; EvOpen 0; EvClose 0]) = Some RECONNECTING /\
  option_map status (run initial [EvEffect; EvOpen 0; EvClose 0; EvTimeout])
  = Some CONNECTING /\
  option_map status (run initial [EvEffect; EvOpen 0; EvClose 0; EvTimeout; EvOpen 1])
  = Some OPEN /\
  option_map sockets (run initial [EvEffect; EvOpen 0; EvClose 0; EvTimeout; EvOpen 1])
  = Some [rs_CLOSED; rs_OPEN].
Proof. repeat split. Qed.

(** When the timer fires, [connect] opens a new socket, which becomes the
    current one. *)
Lemma timeout_connects (st : HookState) (t : Timer) (rest : list Timer) :
  timers st = t :: rest ->
  let st' := deliver st EvTimeout in
  timers st' = rest /\
  sockets st' = (sockets st ++ [rs_CONNECTING])%list /\
  socketRef st' = Some (List.length (sockets st)) /\
  data st' = data st.
Proof.
  intros Ht. simpl. rewrite Ht. destruct t as [[] ms]. simpl. tauto.
Qed.

Lemma close_keeps (id : nat) (st : HookState) :
  data (close id st) = data st /\
  isConnected (close id st) = isConnected st /\
  socketRef (close id st) = socketRef st /\
  timers (close id st) = timers st /\
  console (close id st) = console st.
Proof.
  unfold close. destruct (nth_error (sockets st) id) as [[]|]; simpl; tauto.
Qed.

(** C2, as the code has it.  The clean-up of the effect calls [close] on the
    socket in [socketRef.current] and does nothing else: the pending timers
    stay pending, and the snapshot, the status and [socketRef] are what they
    were.  The [close] event of any socket, the current one or an older one,
    runs the same handler: the status becomes disconnected, a reconnect
    after 3000 ms is scheduled, the snapshot is unchanged. *)
Theorem cleanup_keeps_timers_and_any_close_reconnects (st : HookState) (id : nat) :
  (let st' := deliver st EvCleanup in
   timers st' = timers st /\
   data st' = data st /\
   isConnected st' = isConnected st /\
   socketRef st' = socketRef st /\
   sockets st' = match socketRef st with
                 | Some cur => sockets (close cur st)
                 | None => sockets st
                 end) /\
  (let st' := deliver st (EvClose id) in
   isConnected st' = false /\
   status st' = RECONNECTING /\
   timers st' = (timers st ++ [mkTimer cb_connect 3000])%list /\
   data st' = data st /\
   socketRef st' = socketRef st).
Proof.
  split.
  - simpl. unfold cleanup. destruct (socketRef st) as [cur|] eqn:Hcur.
    + destruct (close_keeps cur st) as (Hd & Hc & Hr & Ht & _).
      rewrite Hd, Hc, Hr, Ht. auto.
    + rewrite Hcur. auto.
  - simpl. unfold status. simpl.
    repeat split. destruct (timers st); reflexivity.
Qed.

(** C2, the claim as the specification states it, fails.  After a shutdown
    the reconnect timer is still pending, and it fires and opens a socket;
    and when the effect has been run again and the new socket is open, the
    [close] of the superseded socket turns the status from [OPEN] to
    [RECONNECTING] and schedules a reconnect. *)
Lemma shutdown_and_stale_close_act :
  (option_map timers (run initial [EvEffect; EvOpen 0; EvClose 0; EvCleanup])
   = Some [mkTimer cb_connect 3000] /\
   option_map sockets
     (run initial [EvEffect; EvOpen 0; EvClose 0; EvCleanup; EvTimeout])
   = Some [rs_CLOSED; rs_CONNECTING]) /\
  (let before := [EvEffect; EvOpen 0; EvCleanup; EvEffect; EvOpen 1] in
   option_map socketRef (run initial before) = Some (Some 1%nat) /\
   option_map sockets (run initial before) = Some [rs_CLOSING; rs_OPEN] /\
   option_map status (run initial before) = Some OPEN /\
   option_map timers (run initial before) = Some [] /\
   option_map status (run initial (before ++ [EvClose 0])) = Some RECONNECTING /\
   option_map timers (run initial (before ++ [EvClose 0]))
   = Some [mkTimer cb_connect 3000]).
Proof. repeat split. Qed.

Example frame_active_no_lane_parses :
  JSON_parse frame_active_no_lane =
  Some (JObject [("signals", JObject []);
                 ("emergency", JObject [("is_active", JBool true); ("lane_id", JNull)]);
                 ("detections", JObject [])]).
Proof. vm_compute. reflexivity. Qed.

(** C9, as the code has it.  The client caches the value [JSON.parse]
    returns for the frame, as it is: nothing about [emergency] is checked,
    and the cached snapshot satisfies the invariant exactly when the value
    of the frame does. *)
Theorem cached_snapshot_is_parsed_frame (st : HookState) (id : nat) (raw : string)
        (S : JsValue) :
  JSON_parse raw = Some S ->
  let st' := deliver st (EvMessage id raw) in
  data st' = S /\
  (emergency_invariant (data st') <-> emergency_invariant S) /\
  console st' = console st.
Proof.
  intros HS. simpl. unfold onmessage. rewrite HS. simpl. tauto.
Qed.

Lemma cached_snapshot_is_parsed_frame_witness :
  let st' := deliver open_state (EvMessage 0 scenario_frame) in
  data st' = scenario_snapshot /\
  (emergency_invariant (data st') <-> emergency_invariant scenario_snapshot) /\
  console st' = console open_state.
Proof.
  apply (cached_snapshot_is_parsed_frame open_state 0 scenario_frame scenario_snapshot).
  vm_compute. reflexivity.
Defined.

(** C9, the claim as the specification states it, fails: the frame whose
    emergency is active and names no lane is of type [SocketData], it is
    accepted, and the snapshot cached breaks the invariant. *)
Lemma active_emergency_without_lane_is_cached :
  let S := data (deliver open_state (EvMessage 0 frame_active_no_lane)) in
  is_SocketData S = true /\
  emergency_is_active S = true /\
  emergency_lane_id S = JNull /\
  ~ emergency_invariant S.
Proof.
  cbv zeta. cbn [deliver]. unfold onmessage.
  rewrite frame_active_no_lane_parses. cbn [setData data].
  split; [reflexivity|]. split; [reflexivity|]. split; [reflexivity|].
  intros [H _]. specialize (H eq_refl). discriminate H.
Qed.

(** ** The decoding step *)

Lemma console_grows (l : list LogEntry) (e : LogEntry) : l <> (l ++ [e])%list.
Proof.
  intros H. apply (f_equal (@List.length _)) in H.
  rewrite length_app in H. simpl in H. lia.
Qed.

Example frame_without_signals_parses :
  JSON_parse frame_without_signals =
  Some (JObject [("emergency", JObject [("is_active", JBool false); ("lane_id", JNull)]);
                 ("detections", JObject [])]).
Proof. vm_compute. reflexivity. Qed.

Lemma lookup_app_middle k k' x p q :
  k' <> k -> lookup k' (p ++ (k, x) :: q) = lookup k' (p ++ q).
Proof.
  intros Hne. induction p as [|[k0 v0] p IH]; simpl.
  - destruct (String.eqb_spec k' k); [contradiction|reflexivity].
  - now rewrite IH.
Qed.

Lemma lookup_without_key k k' p :
  k' <> k -> lookup k' (without_key k p) = lookup k' p.
Proof.
  intros Hne. induction p as [|[k0 v0] p IH]; simpl; [reflexivity|].
  destruct (String.eqb_spec k0 k) as [->|Hk0]; simpl.
  - destruct (String.eqb_spec k' k); [contradiction|exact IH].
  - now rewrite IH.
Qed.

(** The lane records, the overlay and the page read [signals], [emergency]
    and [detections] of the snapshot and no other property. *)
Lemma Home_reads_three_fields p q :
  lookup "signals" p = lookup "signals" q ->
  lookup "emergency" p = lookup "emergency" q ->
  lookup "detections" p = lookup "detections" q ->
  (forall L, derive (JObject p) L = derive (JObject q) L) /\
  banner (JObject p) = banner (JObject q) /\
  (forall connected, Home (JObject p) connected = Home (JObject q) connected).
Proof.
  intros Hs He Hd.
  assert (Hderive : forall L, derive (JObject p) L = derive (JObject q) L).
  { intros L. unfold derive. apply mapM_ext. intros lane _.
    unfold lane_view, lane_signalState, lane_isEmergency, lane_detections.
    cbn [nullish].
    now rewrite (get_ext p q "signals" Hs), (get_ext p q "emergency" He),
      (get_ext p q "detections" Hd). }
  assert (Hbanner : banner (JObject p) = banner (JObject q)).
  { unfold banner. cbn [nullish]. now rewrite (get_ext p q "emergency" He). }
  split; [exact Hderive|]. split; [exact Hbanner|].
  intros connected. unfold Home. now rewrite Hderive, Hbanner.
Qed.

(** C1, as the code has it.  The decoding step of [onmessage] is
    [JSON.parse] and nothing more.  It takes the error path exactly when
    [JSON.parse] throws, which is on a [SyntaxError].  It requires no field:
    every JSON value, whatever its fields, has a text that is decoded to it
    and cached, and what is decoded is a JSON value, nothing more is known.
    An extra key, one other than [signals], [emergency] and [detections],
    has no effect wherever it stands.  A JSON object that carries it at any
    position, between the properties [p] and [q], is decoded from its text
    and cached, and gives the lane records, the overlay and the page of the
    object of [p] and [q] alone.  And whatever text a frame has, when it
    decodes to an object, that object gives the lane records, the overlay
    and the page of the object without the key. *)
Theorem decode_is_JSON_parse_only :
  (forall st id raw,
     (JSON_parse raw = None <->
      console (deliver st (EvMessage id raw))
      = (console st ++ [console_error "Failed to parse WS message"])%list) /\
     parse_value (S (String.length raw)) (skip_ws raw) <> OutOfFuel) /\
  (forall st id v,
     is_json v = true ->
     JSON_parse (render v) = Some v /\
     data (deliver st (EvMessage id (render v))) = v) /\
  (forall raw v, JSON_parse raw = Some v -> is_json v = true) /\
  (forall st id p q k x L connected,
     k <> "signals" -> k <> "emergency" -> k <> "detections" ->
     is_json (JObject (p ++ (k, x) :: q)) = true ->
     JSON_parse (render (JObject (p ++ (k, x) :: q))) = Some (JObject (p ++ (k, x) :: q)) /\
     data (deliver st (EvMessage id (render (JObject (p ++ (k, x) :: q)))))
     = JObject (p ++ (k, x) :: q) /\
     derive (JObject (p ++ (k, x) :: q)) L = derive (JObject (p ++ q)) L /\
     banner (JObject (p ++ (k, x) :: q)) = banner (JObject (p ++ q)) /\
     Home (JObject (p ++ (k, x) :: q)) connected = Home (JObject (p ++ q)) connected) /\
  (forall st id raw o k L connected,
     k <> "signals" -> k <> "emergency" -> k <> "detections" ->
     JSON_parse raw = Some (JObject o) ->
     data (deliver st (EvMessage id raw)) = JObject o /\
     console (deliver st (EvMessage id raw)) = console st /\
     derive (JObject o) L = derive (JObject (without_key k o)) L /\
     banner (JObject o) = banner (JObject (without_key k o)) /\
     Home (JObject o) connected = Home (JObject (without_key k o)) connected).
Proof.
  split; [|split; [|split; [|split]]].
  - intros st id raw. split; [|apply JSON_parse_never_out_of_fuel].
    cbn [deliver]. unfold onmessage. split.
    + intros ->. reflexivity.
    + destruct (JSON_parse raw); [|reflexivity].
      cbn [setData console]. intros H. exfalso. exact (console_grows _ _ H).
  - intros st id v Hv. pose proof (JSON_parse_render v Hv) as H.
    split; [exact H|]. cbn [deliver]. unfold onmessage. now rewrite H.
  - exact JSON_parse_json.
  - intros st id p q k x L connected Hs He Hd Hjson.
    pose proof (JSON_parse_render _ Hjson) as Hparse.
    split; [exact Hparse|].
    split; [cbn [deliver]; unfold onmessage; now rewrite Hparse|].
    destruct (Home_reads_three_fields (p ++ (k, x) :: q) (p ++ q))
      as (Hderive & Hbanner & HHome);
      try (apply lookup_app_middle; congruence).
    split; [apply Hderive|]. split; [exact Hbanner|apply HHome].
  - intros st id raw o k L connected Hs He Hd Hparse.
    split; [cbn [deliver]; unfold onmessage; now rewrite Hparse|].
    split; [cbn [deliver]; unfold onmessage; now rewrite Hparse|].
    destruct (Home_reads_three_fields o (without_key k o))
      as (Hderive & Hbanner & HHome);
      try (symmetry; apply lookup_without_key; congruence).
    split; [apply Hderive|]. split; [exact Hbanner|apply HHome].
Qed.

Lemma decode_is_JSON_parse_only_witness :
  ((JSON_parse frame_truncated = None <->
    console (deliver open_state (EvMessage 0 frame_truncated))
    = (console open_state ++ [console_error "Failed to parse WS message"])%list) /\
   parse_value (S (String.length frame_truncated)) (skip_ws frame_truncated)
   <> OutOfFuel) /\
  (JSON_parse (render scenario_snapshot) = Some scenario_snapshot /\
   data (deliver open_state (EvMessage 0 (render scenario_snapshot))) = scenario_snapshot) /\
  is_json scenario_snapshot = true /\
  (let extended :=
     JObject (firstn 1 (entries scenario_snapshot) ++
              ("sequence", JNumber 7 0) :: skipn 1 (entries scenario_snapshot)) in
   JSON_parse (render extended) = Some extended /\
   data (deliver open_state (EvMessage 0 (render extended))) = extended /\
   derive extended lanes = derive scenario_snapshot lanes /\
   banner extended = banner scenario_snapshot /\
   Home extended true = Home scenario_snapshot true) /\
  (let extended := JObject (("sequence", JNumber 7 0) :: entries scenario_snapshot) in
   JSON_parse scenario_with_sequence = Some extended /\
   data (deliver open_state (EvMessage 0 scenario_with_sequence)) = extended /\
   console (deliver open_state (EvMessage 0 scenario_with_sequence))
   = console open_state /\
   derive extended lanes = derive scenario_snapshot lanes /\
   banner extended = banner scenario_snapshot /\
   Home extended true = Home scenario_snapshot true).
Proof.
  destruct decode_is_JSON_parse_only as (Hfail & Hany & Hrange & Hextra & Htext).
  split; [apply (Hfail open_state 0%nat frame_truncated)|].
  split; [apply (Hany open_state 0%nat scenario_snapshot); reflexivity|].
  split; [apply (Hrange scenario_frame scenario_snapshot); vm_compute; reflexivity|].
  split.
  - apply (Hextra open_state 0%nat (firstn 1 (entries scenario_snapshot))
             (skipn 1 (entries scenario_snapshot)) "sequence" (JNumber 7 0) lanes true);
      [discriminate|discriminate|discriminate|reflexivity].
  - assert (Hparse : JSON_parse scenario_with_sequence
                     = Some (JObject (("sequence", JNumber 7 0) :: entries scenario_snapshot)))
      by (vm_compute; reflexivity).
    cbv zeta. split; [exact Hparse|].
    apply (Htext open_state 0%nat scenario_with_sequence
             (("sequence", JNumber 7 0) :: entries scenario_snapshot)
             "sequence" lanes true);
      [discriminate|discriminate|discriminate|exact Hparse].
Defined.

(** C1, the claim as the specification states it, fails: a well-formed
    frame without [signals] is decoded and cached, with no error logged.
    (Rendering the lanes from it then throws, [data.signals] being
    [undefined].) *)
Lemma frame_without_signals_is_accepted :
  let st := open_state in
  let st' := deliver st (EvMessage 0 frame_without_signals) in
  JSON_parse frame_without_signals = Some (data st') /\
  field "signals" (data st') = JUndefined /\
  console st' = console st /\
  derive (data st') lanes = TypeError.
Proof.
  cbv zeta. cbn [deliver]. unfold onmessage.
  rewrite frame_without_signals_parses. cbn [setData data console].
  repeat split.
Qed.

(** ** Invariants of the runs of the feed client *)

Lemma run_app st evs evs' :
  run st (evs ++ evs') =
  match run st evs with
  | Some st' => run st' evs'
  | None => None
  end.
Proof.
  revert st. induction evs as [|ev evs IH]; intros st; simpl; [reflexivity|].
  destruct (enabled st ev); [apply IH|reflexivity].
Qed.

(** An invariant of the handlers holds after every run. *)
Lemma run_invariant (P : HookState -> Prop) :
  (forall st ev, P st -> enabled st ev = true -> P (deliver st ev)) ->
  forall evs st st', P st -> run st evs = Some st' -> P st'.
Proof.
  intros Hstep. induction evs as [|ev evs IH]; intros st st' HP; simpl.
  - now intros [= <-].
  - destruct (enabled st ev) eqn:E; [|discriminate].
    apply IH. now apply Hstep.
Qed.

Lemma data_deliver st ev : data (deliver st ev) = frame_value (data st) ev.
Proof.
  destruct ev; simpl; try reflexivity.
  - unfold cleanup. destruct (socketRef st); [apply close_keeps|reflexivity].
  - unfold onmessage. destruct (JSON_parse event_data); reflexivity.
  - destruct (timers st) as [|[[] ms] rest]; reflexivity.
Qed.

(** X1. After any run of the client, from any state, the cached snapshot is
    the value of the last frame of the run that [JSON.parse] accepted, and
    the snapshot of the start when there is none: no other event (open,
    close, error, time-out, effect, clean-up, frame that fails to parse)
    writes it, and a frame replaces it whole. *)
Theorem snapshot_is_last_frame (st st' : HookState) (evs : list Event) :
  run st evs = Some st' -> data st' = last_frame (data st) evs.
Proof.
  revert st. induction evs as [|ev evs IH]; intros st; simpl.
  - now intros [= <-].
  - destruct (enabled st ev); [|discriminate].
    intros H. rewrite (IH _ H). unfold last_frame. simpl.
    now rewrite data_deliver.
Qed.

Lemma snapshot_is_last_frame_witness :
  data (deliver live_state (EvClose 0)) =
  last_frame (data initial)
             [EvEffect; EvOpen 0; EvMessage 0 scenario_frame; EvClose 0].
Proof.
  apply (snapshot_is_last_frame initial (deliver live_state (EvClose 0))
           [EvEffect; EvOpen 0; EvMessage 0 scenario_frame; EvClose 0]).
  vm_compute. reflexivity.
Defined.

Lemma isConnected_deliver st ev :
  isConnected (deliver st ev) = lifecycle (isConnected st) ev.
Proof.
  destruct ev; simpl; try reflexivity.
  - unfold cleanup. destruct (socketRef st); [apply close_keeps|reflexivity].
  - unfold onmessage. destruct (JSON_parse event_data); reflexivity.
  - destruct (timers st) as [|[[] ms] rest]; reflexivity.
Qed.

(** X2. After any run, [isConnected] is what the last [open] or [close]
    event of the run made it, whichever socket fired it: [open] of any
    socket raises it, [close] of any socket lowers it, and nothing else
    (not the effect, not its clean-up, not a time-out) touches it. *)
Theorem isConnected_is_last_lifecycle (st st' : HookState) (evs : list Event) :
  run st evs = Some st' -> isConnected st' = last_lifecycle (isConnected st) evs.
Proof.
  revert st. induction evs as [|ev evs IH]; intros st; simpl.
  - now intros [= <-].
  - destruct (enabled st ev); [|discriminate].
    intros H. rewrite (IH _ H). unfold last_lifecycle. simpl.
    now rewrite isConnected_deliver.
Qed.

Lemma isConnected_is_last_lifecycle_witness :
  isConnected (deliver (deliver (deliver open_state EvCleanup) EvEffect) (EvOpen 1))
  = last_lifecycle (isConnected initial)
                   [EvEffect; EvOpen 0; EvCleanup; EvEffect; EvOpen 1].
Proof.
  apply (isConnected_is_last_lifecycle initial
           (deliver (deliver (deliver open_state EvCleanup) EvEffect) (EvOpen 1))
           [EvEffect; EvOpen 0; EvCleanup; EvEffect; EvOpen 1]).
  vm_compute. reflexivity.
Defined.

(** X3. In every state the client can reach, the cached snapshot is [null]
    or a value [JSON.parse] returned: it holds no [undefined] and no object
    with two properties of one name. *)
Theorem reachable_snapshot_is_json (st : HookState) :
  reachable st -> is_json (data st) = true.
Proof.
  intros [evs Hrun]. revert Hrun.
  apply (run_invariant (fun s => is_json (data s) = true)); [|reflexivity].
  intros s ev Hs _. rewrite data_deliver.
  destruct ev; simpl; try exact Hs.
  destruct (JSON_parse event_data) eqn:E; [|exact Hs].
  exact (JSON_parse_json _ _ E).
Qed.

Lemma reachable_snapshot_is_json_witness : is_json (data live_state) = true.
Proof.
  apply (reachable_snapshot_is_json live_state).
  exists [EvEffect; EvOpen 0%nat; EvMessage 0%nat scenario_frame].
  vm_compute. reflexivity.
Defined.

Lemma set_readyState_length id r l :
  List.length (set_readyState id r l) = List.length l.
Proof.
  revert id. induction l as [|x l IH]; intros [|id]; simpl; auto.
Qed.

Lemma set_readyState_live id r r0 l :
  nth_error l id = Some r0 ->
  (List.length (filter is_live (set_readyState id r l))
   + (if is_live r0 then 1 else 0)
   = List.length (filter is_live l) + (if is_live r then 1 else 0))%nat.
Proof.
  revert id. induction l as [|x l IH]; intros [|id]; simpl; try discriminate.
  - intros [= ->]. destruct (is_live r), (is_live r0); simpl; lia.
  - intros H. specialize (IH id H). destruct (is_live x); simpl; lia.
Qed.

Lemma set_readyState_other id id' r l :
  id' <> id -> nth_error (set_readyState id r l) id' = nth_error l id'.
Proof.
  revert id id'. induction l as [|x l IH]; intros [|id] [|id'] H; simpl;
    try reflexivity; try contradiction.
  apply IH. congruence.
Qed.

Lemma set_readyState_same id r l x :
  nth_error l id = Some x -> nth_error (set_readyState id r l) id = Some r.
Proof.
  revert id. induction l as [|y l IH]; intros [|id]; simpl; try discriminate; auto.
Qed.

Lemma filter_live_app l r :
  List.length (filter is_live (l ++ [r]))
  = (List.length (filter is_live l) + (if is_live r then 1 else 0))%nat.
Proof.
  rewrite filter_app, length_app. simpl. destruct (is_live r); reflexivity.
Qed.

Lemma close_live id st : live_sockets (close id st) = live_sockets st.
Proof.
  unfold close, live_sockets.
  destruct (nth_error (sockets st) id) as [r|] eqn:E; [|reflexivity].
  pose proof (set_readyState_live id rs_CLOSING _ _ E) as H.
  destruct r; try reflexivity; cbn [sockets set_sockets]; simpl in H; lia.
Qed.

Lemma deliver_accounting st ev :
  enabled st ev = true ->
  (live_sockets (deliver st ev) + List.length (timers (deliver st ev))
   = live_sockets st + List.length (timers st) + effects [ev])%nat.
Proof.
  unfold effects. destruct ev; simpl; intros Hen.
  - unfold live_sockets. simpl. rewrite filter_live_app. simpl. lia.
  - unfold cleanup. destruct (socketRef st) as [cur|]; [|lia].
    rewrite close_live. destruct (close_keeps cur st) as (_ & _ & _ & -> & _). lia.
  - destruct (nth_error (sockets st) id) as [[]|] eqn:E; try discriminate.
    unfold live_sockets. simpl.
    pose proof (set_readyState_live id rs_OPEN _ _ E) as H. simpl in H. lia.
  - unfold onmessage. destruct (JSON_parse event_data); unfold live_sockets; simpl; lia.
  - unfold live_sockets. simpl. lia.
  - destruct (nth_error (sockets st) id) as [r|] eqn:E; [|discriminate].
    unfold live_sockets. simpl. rewrite length_app. simpl.
    pose proof (set_readyState_live id rs_CLOSED _ _ E) as H.
    destruct r; try discriminate; simpl in H; lia.
  - destruct (timers st) as [|[[] ms] rest]; [discriminate|].
    unfold live_sockets. simpl. rewrite filter_live_app. simpl. lia.
Qed.

Lemma run_accounting evs :
  forall st st',
    run st evs = Some st' ->
    (live_sockets st' + List.length (timers st')
     = live_sockets st + List.length (timers st) + effects evs)%nat.
Proof.
  induction evs as [|ev evs IH]; intros st st'; simpl.
  - intros [= <-]. unfold effects. simpl. lia.
  - destruct (enabled st ev) eqn:E; [|discriminate].
    intros H. rewrite (IH _ _ H), (deliver_accounting st ev E).
    unfold effects. simpl. destruct ev; simpl; lia.
Qed.

(** X4. After any run from the start, the sockets not yet closed and the
    pending reconnect timers are, together, as many as the times the effect
    was run: every socket that closes is replaced by one timer, every timer
    that fires by one socket, and the clean-up removes neither.  So a client
    mounted once has, at every moment, exactly one socket alive or one
    reconnect pending, never none and never two. *)
Theorem connections_are_conserved (evs : list Event) (st : HookState) :
  run initial evs = Some st ->
  (live_sockets st + List.length (timers st) = effects evs)%nat /\
  (effects evs = 1%nat ->
   (live_sockets st = 1%nat /\ timers st = []) \/
   (live_sockets st = 0%nat /\ List.length (timers st) = 1%nat)).
Proof.
  intros H. pose proof (run_accounting evs initial st H) as Hacc.
  unfold live_sockets at 2 in Hacc. simpl in Hacc.
  split; [lia|]. intros Hone.
  destruct (timers st) as [|t rest]; simpl in *; [left|right]; split;
    (reflexivity || lia).
Qed.

Lemma connections_are_conserved_witness :
  let evs := [EvEffect; EvOpen 0; EvClose 0; EvCleanup; EvTimeout; EvOpen 1] in
  let st := deliver (deliver (deliver (deliver open_state (EvClose 0)) EvCleanup)
                              EvTimeout) (EvOpen 1) in
  (live_sockets st + List.length (timers st) = effects evs)%nat /\
  (effects evs = 1%nat ->
   (live_sockets st = 1%nat /\ timers st = []) \/
   (live_sockets st = 0%nat /\ List.length (timers st) = 1%nat)).
Proof.
  apply (connections_are_conserved
           [EvEffect; EvOpen 0; EvClose 0; EvCleanup; EvTimeout; EvOpen 1]).
  vm_compute. reflexivity.
Defined.

(** X5. In every state the client can reach, every pending timer calls
    [connect] after 3000 ms: the delay of a reconnect never grows and never
    shrinks, however many attempts have failed. *)
Theorem reconnect_delay_is_fixed (st : HookState) :
  reachable st -> Forall (fun t => t = mkTimer cb_connect 3000) (timers st).
Proof.
  intros [evs Hrun]. revert Hrun.
  apply (run_invariant (fun s => Forall (fun t => t = mkTimer cb_connect 3000)
                                        (timers s))); [|constructor].
  intros s ev Hs _. destruct ev; simpl; try exact Hs.
  - unfold cleanup. destruct (socketRef s) as [cur|]; [|exact Hs].
    now destruct (close_keeps cur s) as (_ & _ & _ & -> & _).
  - unfold onmessage. destruct (JSON_parse event_data); exact Hs.
  - apply Forall_app. split; [exact Hs|]. repeat constructor.
  - destruct (timers s) as [|[[] ms] rest] eqn:Et; [now rewrite Et|].
    simpl. now inversion Hs.
Qed.

Lemma reconnect_delay_is_fixed_witness :
  Forall (fun t => t = mkTimer cb_connect 3000)
         (timers (deliver (deliver open_state (EvClose 0)) EvCleanup)).
Proof.
  apply (reconnect_delay_is_fixed (deliver (deliver open_state (EvClose 0)) EvCleanup)).
  exists [EvEffect; EvOpen 0%nat; EvClose 0%nat; EvCleanup].
  vm_compute. reflexivity.
Defined.

Lemma newest_socket_app l r : newest_socket (l ++ [r]) = Some (List.length l).
Proof.
  destruct l as [|x l]; simpl; [reflexivity|].
  rewrite length_app. simpl. f_equal. lia.
Qed.

Lemma newest_socket_set id r l :
  newest_socket (set_readyState id r l) = newest_socket l.
Proof.
  destruct l as [|x l]; [now destruct id|].
  destruct id as [|id]; simpl; [reflexivity|].
  f_equal. apply set_readyState_length.
Qed.

(** X6. In every state the client can reach, [socketRef.current] is the
    socket created last ([null] before the first): the clean-up therefore
    closes the newest socket only, and an older socket that is still open
    is out of its reach. *)
Theorem socketRef_is_newest (st : HookState) :
  reachable st -> socketRef st = newest_socket (sockets st).
Proof.
  intros [evs Hrun]. revert Hrun.
  apply (run_invariant (fun s => socketRef s = newest_socket (sockets s)));
    [|reflexivity].
  intros s ev Hs _. destruct ev; simpl.
  - now rewrite newest_socket_app.
  - unfold cleanup. destruct (socketRef s) as [cur|] eqn:Hcur; [|now rewrite Hcur].
    unfold close. destruct (nth_error (sockets s) cur) as [[]|]; simpl;
      rewrite ?newest_socket_set; congruence.
  - now rewrite newest_socket_set.
  - unfold onmessage. destruct (JSON_parse event_data); exact Hs.
  - exact Hs.
  - now rewrite newest_socket_set.
  - destruct (timers s) as [|[[] ms] rest]; [exact Hs|].
    simpl. now rewrite newest_socket_app.
Qed.

Lemma socketRef_is_newest_witness :
  socketRef (deliver (deliver open_state EvCleanup) EvEffect)
  = newest_socket (sockets (deliver (deliver open_state EvCleanup) EvEffect)).
Proof.
  apply (socketRef_is_newest (deliver (deliver open_state EvCleanup) EvEffect)).
  exists [EvEffect; EvOpen 0%nat; EvCleanup; EvEffect].
  vm_compute. reflexivity.
Defined.

Lemma close_idempotent id st : close id (close id st) = close id st.
Proof.
  unfold close at 2.
  destruct (nth_error (sockets st) id) as [r|] eqn:E.
  - destruct r; unfold close; simpl;
      rewrite ?(set_readyState_same id rs_CLOSING _ _ E), ?E; reflexivity.
  - unfold close. now rewrite E.
Qed.

(** X7. The clean-up of the effect is idempotent, it does nothing when no
    socket was ever created, it leaves every socket other than the current
    one as it was, and after it the browser fires neither [open] nor
    [message] on the current socket. *)
Theorem cleanup_closes_current_socket_once (st : HookState) :
  cleanup (cleanup st) = cleanup st /\
  (socketRef st = None -> cleanup st = st) /\
  (forall cur, socketRef st = Some cur ->
     (forall id, id <> cur ->
        nth_error (sockets (cleanup st)) id = nth_error (sockets st) id) /\
     enabled (cleanup st) (EvOpen cur) = false /\
     (forall event_data, enabled (cleanup st) (EvMessage cur event_data) = false)).
Proof.
  split; [|split].
  - unfold cleanup at 2. destruct (socketRef st) as [cur|] eqn:Hcur.
    + unfold cleanup. destruct (close_keeps cur st) as (_ & _ & -> & _).
      rewrite Hcur. apply close_idempotent.
    + unfold cleanup. now rewrite Hcur.
  - intros H. unfold cleanup. now rewrite H.
  - intros cur Hcur. unfold cleanup. rewrite Hcur. unfold close.
    destruct (nth_error (sockets st) cur) as [r|] eqn:E.
    + destruct r; simpl;
        rewrite ?(set_readyState_same cur rs_CLOSING _ _ E), ?E;
        (split; [intros id Hid; rewrite ?set_readyState_other by assumption;
                 reflexivity|split; reflexivity]).
    + simpl. rewrite E. repeat split.
Qed.

Lemma cleanup_closes_current_socket_once_witness :
  let st := deliver (deliver open_state EvCleanup) EvEffect in
  cleanup (cleanup st) = cleanup st /\
  (forall id, id <> 1%nat ->
     nth_error (sockets (cleanup st)) id = nth_error (sockets st) id) /\
  enabled (cleanup st) (EvOpen 1) = false /\
  (forall event_data, enabled (cleanup st) (EvMessage 1 event_data) = false).
Proof.
  destruct (cleanup_closes_current_socket_once
              (deliver (deliver open_state EvCleanup) EvEffect)) as (Hidem & _ & Hcur).
  split; [exact Hidem|]. apply (Hcur 1%nat). reflexivity.
Defined.

(** ** What [Home] does with any value of [data] *)

Lemma get_field v k : nullish v = false -> get v k = Ok (field k v).
Proof.
  destruct v; simpl; try discriminate; try reflexivity.
  intros _. destruct (lookup k props); reflexivity.
Qed.

Lemma get_nullish v k : get v k = TypeError <-> nullish v = true.
Proof.
  destruct v; simpl; try (split; [discriminate|discriminate]);
    try (split; reflexivity).
  destruct (lookup k props); split; discriminate.
Qed.

Lemma lane_view_throws data id :
  lane_view data id = TypeError <->
  nullish data = false /\
  (nullish (field "signals" data) = true \/ nullish (field "emergency" data) = true).
Proof.
  unfold lane_view, lane_signalState, lane_isEmergency, lane_detections.
  destruct (nullish data) eqn:Hd.
  { cbn [bind]. split; [discriminate|intros [H _]; discriminate]. }
  rewrite !(get_field data) by assumption. cbn [bind].
  destruct (nullish (field "signals" data)) eqn:Hs.
  { apply get_nullish with (k := laneKey id) in Hs. rewrite Hs. cbn [bind].
    split; auto. }
  rewrite (get_field (field "signals" data)) by assumption. cbn [bind].
  destruct (nullish (field "emergency" data)) eqn:He.
  { apply get_nullish with (k := "is_active") in He. rewrite He. cbn [bind].
    split; auto. }
  rewrite !(get_field (field "emergency" data)) by assumption. cbn [bind].
  assert (Hdet : exists d,
     (if nullish (field "detections" data)
      then Ok (JArray [])
      else bind (get (field "detections" data) (laneKey id))
                (fun d => Ok (or_else d (JArray [])))) = Ok d).
  { destruct (nullish (field "detections" data)) eqn:Hn; [eauto|].
    rewrite get_field by assumption. cbn [bind]. eauto. }
  destruct Hdet as (d & ->).
  destruct (truthy (field "is_active" (field "emergency" data))); cbn [bind];
    (split; [discriminate|intros [_ [H|H]]; discriminate]).
Qed.

Lemma banner_throws data :
  banner data = TypeError <->
  nullish data = false /\ nullish (field "emergency" data) = true.
Proof.
  unfold banner.
  destruct (nullish data) eqn:Hd.
  { split; [discriminate|intros [H _]; discriminate]. }
  rewrite !(get_field data) by assumption. cbn [bind].
  destruct (nullish (field "emergency" data)) eqn:He.
  { apply get_nullish with (k := "is_active") in He. rewrite He. cbn [bind].
    split; auto. }
  rewrite !(get_field (field "emergency" data)) by assumption. cbn [bind].
  destruct (truthy (field "is_active" (field "emergency" data)));
    (split; [discriminate|intros [_ H]; discriminate]).
Qed.

Lemma mapM_throws {A B} (f : A -> result B) l :
  mapM f l = TypeError <-> exists a, In a l /\ f a = TypeError.
Proof.
  induction l as [|a l IH]; simpl.
  - split; [discriminate|intros (a & [] & _)].
  - destruct (f a) eqn:Ea; cbn [bind].
    + destruct (mapM f l) as [bs|] eqn:El; cbn [bind].
      * split; [discriminate|]. intros (x & [<-|Hx] & Hfx); [congruence|].
        assert (Hbad : Ok bs = TypeError) by (apply (proj2 IH); eauto).
        discriminate Hbad.
      * split; [|reflexivity]. intros _.
        destruct (proj1 IH eq_refl) as (x & Hx & Hfx). eauto.
    + split; [|reflexivity]. intros _. exists a. auto.
Qed.

(** X8. Whatever [data] is, the body of [Home] (the callback of
    [lanes.map] and the condition of the overlay, which build the props of
    the four cards and the overlay element) throws a [TypeError] exactly
    when [data] is neither [null] nor [undefined] and its [signals] or its
    [emergency] is missing, [null] or [undefined].  A missing or [null]
    [detections] does not make the body throw, nor does a missing lane key.
    The body checks no type: a field of another type is passed on as a prop
    or as a child, see [Home_passes_untyped_fields_on]; what the rendering of
    the cards and of the children does with it comes after the body and is
    no part of this statement. *)
Theorem Home_throws_iff (data : JsValue) (connected : bool) :
  Home data connected = TypeError <->
  nullish data = false /\
  (nullish (field "signals" data) = true \/ nullish (field "emergency" data) = true).
Proof.
  unfold Home, derive.
  destruct (mapM (lane_view data) lanes) as [views|] eqn:Ev; cbn [bind].
  - destruct (banner data) as [b|] eqn:Eb; cbn [bind].
    + split; [discriminate|]. intros H.
      assert (Hl : lane_view data 1 = TypeError) by now apply lane_view_throws.
      assert (Hm : mapM (lane_view data) lanes = TypeError).
      { apply mapM_throws. exists 1. split; [now left|exact Hl]. }
      congruence.
    + split; [|reflexivity]. intros _.
      apply banner_throws in Eb. tauto.
  - split; [|reflexivity]. intros _.
    apply mapM_throws in Ev as (id & _ & Hid). now apply lane_view_throws in Hid.
Qed.

(** The body of [Home] returns for a frame whose [lane_id] is an object and
    whose [detections] of lane 1 is a string: the object is the child of the
    overlay and the string the [detections] prop of the card.  (React then
    refuses the object as a child, and [detections.map] is no function on a
    string: the page fails when these are rendered, not in [Home].) *)
Example Home_passes_untyped_fields_on :
  let frame :=
    wire "{'signals':{},'emergency':{'is_active':true,'lane_id':{'n':1}},'detections':{'lane1':'car'}}" in
  exists data r,
    JSON_parse frame = Some data /\
    Home data true = Ok r /\
    overlay r = Some (JObject [("n", JNumber 1 0)]) /\
    map detections (cards r) = [JString "car"; JArray []; JArray []; JArray []] /\
    map isEmergency (cards r) = [false; false; false; false].
Proof.
  cbv zeta. eexists. eexists.
  split; [vm_compute; reflexivity|].
  split; [vm_compute; reflexivity|].
  repeat split.
Qed.

(** Numbers are read as binary64: a [lane_id] written
    [1.00000000000000000001] is the number 1 and flags lane 1, and an
    [is_active] written [1e-400] is the number 0 and shows no overlay. *)
Example numbers_are_read_as_binary64 :
  let frame :=
    wire "{'signals':{},'emergency':{'is_active':1,'lane_id':1.00000000000000000001},'detections':{}}" in
  let small :=
    wire "{'signals':{},'emergency':{'is_active':1e-400,'lane_id':1},'detections':{}}" in
  (exists data views,
     JSON_parse frame = Some data /\
     derive data lanes = Ok views /\
     map isEmergency views = [true; false; false; false]) /\
  (exists data views,
     JSON_parse small = Some data /\
     derive data lanes = Ok views /\
     banner data = Ok None /\
     map isEmergency views = [false; false; false; false]).
Proof.
  cbv zeta. split; eexists; eexists.
  - split; [vm_compute; reflexivity|]. split; [vm_compute; reflexivity|].
    reflexivity.
  - split; [vm_compute; reflexivity|]. split; [vm_compute; reflexivity|].
    split; reflexivity.
Qed.

Lemma lane_view_flag data id v :
  lane_view data id = Ok v ->
  laneId v = id /\
  (isEmergency v = true <->
   exists l, banner data = Ok (Some l) /\ strict_eq_int l id = true).
Proof.
  unfold lane_view, lane_isEmergency, banner.
  destruct (lane_signalState data (laneKey id)) as [s|]; cbn [bind]; [|discriminate].
  destruct (nullish data).
  { cbn [bind]. destruct (lane_detections data (laneKey id)); cbn [bind];
      [|discriminate].
    intros [= <-]. simpl. split; [reflexivity|].
    split; [discriminate|intros (l & H & _); discriminate]. }
  destruct (get data "emergency") as [e|]; cbn [bind]; [|discriminate].
  destruct (get e "is_active") as [a|]; cbn [bind]; [|discriminate].
  destruct (truthy a).
  - destruct (get e "lane_id") as [l|]; cbn [bind]; [|discriminate].
    destruct (lane_detections data (laneKey id)); cbn [bind]; [|discriminate].
    intros [= <-]. simpl. split; [reflexivity|]. split.
    + intros H. exists l. auto.
    + intros (l' & [= <-] & H). exact H.
  - cbn [bind]. destruct (lane_detections data (laneKey id)); cbn [bind];
      [|discriminate].
    intros [= <-]. simpl. split; [reflexivity|].
    split; [discriminate|intros (l & H & _); discriminate].
Qed.

Lemma mapM_In {A B} (f : A -> result B) l bs b :
  mapM f l = Ok bs -> In b bs -> exists a, In a l /\ f a = Ok b.
Proof.
  revert bs. induction l as [|a l IH]; simpl; intros bs.
  - intros [= <-] [].
  - destruct (f a) as [b0|] eqn:Ea; cbn [bind]; [|discriminate].
    destruct (mapM f l) as [bs0|]; cbn [bind]; [|discriminate].
    intros [= <-] [<-|Hin]; [eauto|].
    destruct (IH bs0 eq_refl Hin) as (x & Hx & Hfx). eauto.
Qed.

(** X9. Whatever [data] is, when [Home] renders, a card is flagged
    [isEmergency] exactly when the alert overlay is shown and the lane it
    names is the lane of the card: no card is flagged while the overlay is
    hidden, and all flagged cards are of the lane the overlay names. *)
Theorem flagged_cards_agree_with_overlay
        (data : JsValue) (connected : bool) (r : Rendered) (v : LaneView) :
  Home data connected = Ok r ->
  In v (cards r) ->
  (isEmergency v = true <->
   exists l, overlay r = Some l /\ strict_eq_int l (laneId v) = true).
Proof.
  unfold Home, derive.
  destruct (mapM (lane_view data) lanes) as [views|] eqn:Ev; cbn [bind];
    [|discriminate].
  destruct (banner data) as [b|] eqn:Eb; cbn [bind]; [|discriminate].
  intros [= <-]. simpl. intros Hin.
  destruct (mapM_In _ _ _ _ Ev Hin) as (id & _ & Hid).
  destruct (lane_view_flag data id v Hid) as (-> & Hflag).
  rewrite Hflag. split; intros (l & H & Hl); exists l; split; congruence.
Qed.

Lemma flagged_cards_agree_with_overlay_witness :
  isEmergency (mkLaneView 1 (JString "GREEN") true
                 (JArray [JObject [("class", JString "ambulance");
                                   ("confidence", JNumber 92 (-2))]])) = true <->
  exists l, Some (JNumber 1 0) = Some l /\ strict_eq_int l 1 = true.
Proof.
  apply (flagged_cards_agree_with_overlay scenario_snapshot true
           (mkRendered "ONLINE"
              [ mkLaneView 1 (JString "GREEN") true
                  (JArray [JObject [("class", JString "ambulance");
                                    ("confidence", JNumber 92 (-2))]]);
                mkLaneView 2 (JString "RED") false (JArray []);
                mkLaneView 3 (JString "RED") false (JArray []);
                mkLaneView 4 (JString "RED") false (JArray []) ]
              (Some (JNumber 1 0)))).
  - reflexivity.
  - simpl. now left.
Defined.

Lemma append_cancel (a b c : string) : (a ++ b = a ++ c)%string -> b = c.
Proof.
  induction a as [|x a IH]; simpl; [auto|]. intros [= H]. auto.
Qed.

Lemma to_int_not_nil n : Z.to_int n <> Decimal.Pos Decimal.Nil /\
                         Z.to_int n <> Decimal.Neg Decimal.Nil.
Proof.
  destruct n as [|p|p]; simpl; split; try discriminate;
    intros [= H]; exact (DecimalPos.Unsigned.to_uint_nonnil p H).
Qed.

Lemma number_to_string_inj a b : number_to_string a = number_to_string b -> a = b.
Proof.
  unfold number_to_string. intros H.
  apply DecimalZ.to_int_inj.
  destruct (to_int_not_nil a) as [Ha1 Ha2], (to_int_not_nil b) as [Hb1 Hb2].
  pose proof (NilZero.isi (Z.to_int a) Ha1 Ha2) as Ia.
  pose proof (NilZero.isi (Z.to_int b) Hb1 Hb2) as Ib.
  rewrite H in Ia. congruence.
Qed.

(** X10. Two lanes with different ids read different keys of [signals] and
    of [detections]: [laneKey] is one-to-one, so no lane ever shows the
    signal or the detections of another. *)
Theorem laneKey_injective (a b : Z) : laneKey a = laneKey b -> a = b.
Proof.
  unfold laneKey. intros H. apply append_cancel in H.
  now apply number_to_string_inj.
Qed.

Lemma laneKey_injective_witness : laneKey 12 = laneKey 12 /\ 12 = 12.
Proof. split; [reflexivity|]. apply (laneKey_injective 12 12). reflexivity. Defined.

(** ** The lamps, the status line and the detections panel of a card *)

Lemma strict_eq_string_true v text : strict_eq_string v text = true <-> v = JString text.
Proof.
  destruct v; simpl; try (split; [discriminate|discriminate]).
  rewrite String.eqb_eq. split; [now intros ->|now intros [= ->]].
Qed.

Lemma SignalState_lights_one_lamp state :
  is_SignalState state = true -> lamps_lit (TrafficLight state) = 1%nat.
Proof.
  destruct state; simpl; try discriminate.
  unfold lamps_lit, TrafficLight. cbn [strict_eq_string red_lit yellow_lit green_lit].
  destruct (String.eqb_spec s "RED") as [->|Hr]; [reflexivity|].
  destruct (String.eqb_spec s "YELLOW") as [->|Hy]; [reflexivity|].
  destruct (String.eqb_spec s "GREEN") as [->|Hg]; [reflexivity|discriminate].
Qed.

(** X11. Whatever value a card receives as [signalState], at most one lamp
    of its traffic light is lit.  For ['RED'], ['YELLOW'] and ['GREEN']
    exactly one is, and the dot and the text of the status line have its
    colour.  For any other value no lamp is lit at all, while the status
    line is red. *)
Theorem lamps_and_status_line (state : JsValue) :
  (is_SignalState state = true ->
   lamps_lit (TrafficLight state) = 1%nat /\
   (red_lit (TrafficLight state) = true <-> status_colour state = red) /\
   (yellow_lit (TrafficLight state) = true <-> status_colour state = yellow) /\
   (green_lit (TrafficLight state) = true <-> status_colour state = green)) /\
  (is_SignalState state = false ->
   lamps_lit (TrafficLight state) = 0%nat /\ status_colour state = red).
Proof.
  unfold lamps_lit, TrafficLight, status_colour.
  destruct state; cbn [is_SignalState strict_eq_string red_lit yellow_lit green_lit];
    try (split; [discriminate|intros _; split; reflexivity]).
  destruct (String.eqb_spec s "RED") as [->|Hr].
  { split; [intros _|discriminate]. cbn. repeat split; congruence. }
  destruct (String.eqb_spec s "YELLOW") as [->|Hy].
  { split; [intros _|discriminate]. cbn. repeat split; congruence. }
  destruct (String.eqb_spec s "GREEN") as [->|Hg].
  { split; [intros _|discriminate]. cbn. repeat split; congruence. }
  split; [discriminate|]. intros _. split; reflexivity.
Qed.

Lemma lamps_and_status_line_witness :
  (lamps_lit (TrafficLight (JString "YELLOW")) = 1%nat /\
   (red_lit (TrafficLight (JString "YELLOW")) = true <->
    status_colour (JString "YELLOW") = red) /\
   (yellow_lit (TrafficLight (JString "YELLOW")) = true <->
    status_colour (JString "YELLOW") = yellow) /\
   (green_lit (TrafficLight (JString "YELLOW")) = true <->
    status_colour (JString "YELLOW") = green)) /\
  (lamps_lit (TrafficLight (JString "BLUE")) = 0%nat /\
   status_colour (JString "BLUE") = red).
Proof.
  split.
  - apply (proj1 (lamps_and_status_line (JString "YELLOW"))). reflexivity.
  - apply (proj2 (lamps_and_status_line (JString "BLUE"))). reflexivity.
Defined.

Lemma replace_underscores_length s :
  String.length (replace_underscores s) = String.length s.
Proof. induction s as [|c s IH]; simpl; [reflexivity|now rewrite IH]. Qed.

Lemma replace_underscores_clean s : has_char "_" (replace_underscores s) = false.
Proof.
  induction s as [|c s IH]; simpl; [reflexivity|]. rewrite IH.
  destruct (Ascii.eqb_spec c "_") as [->|Hc]; [reflexivity|].
  apply orb_false_iff. split; [|reflexivity]. now apply Ascii.eqb_neq.
Qed.

Lemma replace_underscores_fixed s :
  has_char "_" s = false -> replace_underscores s = s.
Proof.
  induction s as [|c s IH]; simpl; [reflexivity|].
  intros H. apply orb_false_iff in H as [Hc Hs]. now rewrite Hc, IH.
Qed.

Lemma detection_label_typed det :
  is_detection det = true ->
  detection_label det = Ok (replace_underscores (class_of det)).
Proof.
  unfold is_detection, detection_label, class_of.
  destruct (field "class" det) as [| | | |s| |] eqn:E; try discriminate.
  intros _. rewrite get_field.
  - rewrite E. reflexivity.
  - destruct det; simpl in E; try discriminate. reflexivity.
Qed.

Lemma mapM_typed {A B} (f : A -> result B) (g : A -> B) (T : A -> bool) l :
  (forall a, T a = true -> f a = Ok (g a)) ->
  forallb T l = true -> mapM f l = Ok (map g l).
Proof.
  intros H. induction l as [|a l IH]; simpl; [reflexivity|].
  intros Hl. apply andb_true_iff in Hl as [Ha Hl].
  now rewrite (H a Ha), (IH Hl).
Qed.

Lemma detections_panel_typed items :
  forallb is_detection items = true ->
  detections_panel items =
  Ok (match items with
      | [] => None
      | _ :: _ => Some (map (fun det => replace_underscores (class_of det)) items)
      end).
Proof.
  intros Ht. destruct items as [|det items]; [reflexivity|].
  unfold detections_panel.
  now rewrite (mapM_typed detection_label _ is_detection _ detection_label_typed Ht).
Qed.

(** X12. For detections of the type the interface gives them, the panel of
    a card never throws; it is hidden exactly when there is no detection,
    and otherwise has one row per detection, in their order, whose name is
    the class with every underscore turned into a space: a name keeps the
    length of the class and holds no underscore. *)
Theorem detections_panel_rows (items : list JsValue) :
  forallb is_detection items = true ->
  detections_panel items =
  Ok (match items with
      | [] => None
      | _ :: _ => Some (map (fun det => replace_underscores (class_of det)) items)
      end) /\
  (forall row,
     In row (map (fun det => replace_underscores (class_of det)) items) ->
     has_char "_" row = false) /\
  (forall det, In det items ->
     String.length (replace_underscores (class_of det))
     = String.length (class_of det)).
Proof.
  intros Ht. split; [|split].
  - now apply detections_panel_typed.
  - intros row Hrow. apply in_map_iff in Hrow as (det & <- & _).
    apply replace_underscores_clean.
  - intros det _. apply replace_underscores_length.
Qed.

Lemma detections_panel_rows_witness :
  let items := [JObject [("class", JString "fire_truck"); ("confidence", JNumber 8 (-1))];
                JObject [("class", JString "ambulance"); ("confidence", JNumber 92 (-2))]] in
  detections_panel items = Ok (Some ["fire truck"; "ambulance"]) /\
  (forall row, In row ["fire truck"; "ambulance"] -> has_char "_" row = false) /\
  (forall det, In det items ->
     String.length (replace_underscores (class_of det))
     = String.length (class_of det)).
Proof.
  apply (detections_panel_rows
           [JObject [("class", JString "fire_truck"); ("confidence", JNumber 8 (-1))];
            JObject [("class", JString "ambulance"); ("confidence", JNumber 92 (-2))]]).
  reflexivity.
Defined.

Lemma LaneView_spec_typed S id :
  is_SocketData S = true ->
  is_SignalState (signalState (LaneView_spec S id)) = true /\
  is_Array is_detection (detections (LaneView_spec S id)) = true.
Proof.
  unfold is_SocketData. destruct S; try discriminate.
  rewrite !andb_true_iff. intros [[[Hsig _] _] Hdet].
  apply is_Record_inv in Hsig as (sp & Hsp & Hsig).
  apply is_Record_inv in Hdet as (dp & Hdp & Hdet).
  unfold LaneView_spec. cbn [signalState detections]. rewrite Hsp, Hdp.
  cbn [entries]. split.
  - destruct (lookup (laneKey id) sp) as [x|] eqn:E; [exact (Hsig _ _ E)|reflexivity].
  - destruct (lookup (laneKey id) dp) as [x|] eqn:E; [exact (Hdet _ _ E)|reflexivity].
Qed.

(** X13. Every card [Home] renders, before the first frame or from a
    snapshot of type [SocketData], is sound down to its parts: exactly one
    lamp is lit, the red one when the snapshot has no signal for the lane;
    [detections] is an array and its panel renders without throwing, hidden
    when the snapshot has no detections for the lane. *)
Theorem cards_render_from_typed_data (data : JsValue) (id : Z) (v : LaneView) :
  data = JNull \/ is_SocketData data = true ->
  lane_view data id = Ok v ->
  lamps_lit (TrafficLight (signalState v)) = 1%nat /\
  (lookup (laneKey id) (entries (field "signals" data)) = None ->
   red_lit (TrafficLight (signalState v)) = true) /\
  exists items panel,
    detections v = JArray items /\
    detections_panel items = Ok panel /\
    (lookup (laneKey id) (entries (field "detections" data)) = None -> panel = None).
Proof.
  intros [->|Ht].
  - intros [= <-]. cbn [signalState detections].
    split; [reflexivity|]. split; [reflexivity|].
    exists [], None. repeat split.
  - rewrite (lane_view_SocketData data id Ht). intros [= <-].
    destruct (LaneView_spec_typed data id Ht) as [Hs Hd].
    split; [apply SignalState_lights_one_lamp, Hs|].
    split.
    { intros Hnone. unfold LaneView_spec. cbn [signalState]. now rewrite Hnone. }
    destruct (detections (LaneView_spec data id)) as [| | | | |items|] eqn:E;
      try discriminate.
    exists items.
    pose proof (detections_panel_typed items Hd) as Hpanel.
    eexists. split; [reflexivity|]. split; [exact Hpanel|].
    intros Hnone. unfold LaneView_spec in E. cbn [detections] in E.
    rewrite Hnone in E. injection E as <-. reflexivity.
Qed.

Lemma cards_render_from_typed_data_witness :
  let v := mkLaneView 2 (JString "RED") false (JArray []) in
  lamps_lit (TrafficLight (signalState v)) = 1%nat /\
  (lookup (laneKey 2) (entries (field "signals" scenario_snapshot)) = None ->
   red_lit (TrafficLight (signalState v)) = true) /\
  exists items panel,
    detections v = JArray items /\
    detections_panel items = Ok panel /\
    (lookup (laneKey 2) (entries (field "detections" scenario_snapshot)) = None ->
     panel = None).
Proof.
  apply (cards_render_from_typed_data scenario_snapshot 2
           (mkLaneView 2 (JString "RED") false (JArray []))).
  - right. reflexivity.
  - reflexivity.
Defined.

(** ** The addresses a card uses *)

Lemma uint_chars u : all_chars number_char (NilEmpty.string_of_uint u) = true.
Proof. induction u; simpl; auto. Qed.

Lemma number_to_string_chars n : all_chars number_char (number_to_string n) = true.
Proof.
  unfold number_to_string, NilZero.string_of_int, NilZero.string_of_uint.
  destruct (Z.to_int n) as [u|u]; destruct u; simpl; auto using uint_chars.
Qed.

Lemma split_at_delimiter P a b c c' x y :
  all_chars P a = true -> all_chars P b = true ->
  P c = false -> P c' = false ->
  (a ++ String c x = b ++ String c' y)%string ->
  a = b /\ c = c' /\ x = y.
Proof.
  revert b. induction a as [|e a IH]; intros [|d b]; simpl; intros Ha Hb Hc Hc'.
  - intros [= -> ->]. auto.
  - intros [= -> _]. apply andb_true_iff in Hb as [Hd _]. congruence.
  - intros [= -> _]. apply andb_true_iff in Ha as [He _]. congruence.
  - intros [= -> H]. apply andb_true_iff in Ha as [_ Ha], Hb as [_ Hb].
    destruct (IH b Ha Hb Hc Hc' H) as (-> & -> & ->). auto.
Qed.

Lemma no_delimiter_inside P a b c y :
  all_chars P a = true -> P c = false -> a <> (b ++ String c y)%string.
Proof.
  revert a. induction b as [|d b IH]; intros [|e a]; simpl; intros Ha Hc;
    try discriminate.
  - intros [= -> _]. apply andb_true_iff in Ha as [He _]. congruence.
  - intros [= _ H]. apply andb_true_iff in Ha as [_ Ha]. exact (IH a Ha Hc H).
Qed.

(** X14. The address the image of a card is loaded from tells the lane and
    the time stamp: two cards of different lanes never load the same
    address, and a refresh at another time always changes the address of a
    card, so that the browser loads the image again.  Without a stream key,
    or with the key [0], the address is the bare [videoUrl]. *)
Theorem image_src_tells_lane_and_stamp (env : option string) (a b : Z)
        (ka kb : option Z) :
  image_src (videoUrl env a) ka = image_src (videoUrl env b) kb ->
  a = b /\ stamp ka = stamp kb.
Proof.
  assert (Hsrc : forall n k,
            image_src (videoUrl env n) k =
            ((or_default env "http://localhost:8000" ++ "/video") ++ "/"
             ++ number_to_string n
             ++ match stamp k with
                | Some t => "?t=" ++ number_to_string t
                | None => ""
                end)%string).
  { intros n k. unfold image_src, videoUrl, stamp.
    destruct k as [t|]; [destruct (t =? 0)|];
      rewrite ?append_assoc; cbn [append]; rewrite ?append_assoc;
      cbn [append]; rewrite ?append_empty; reflexivity. }
  rewrite !Hsrc. intros H.
  apply append_cancel in H. cbn [append] in H. injection H as H.
  pose proof (number_to_string_chars a) as Ca.
  pose proof (number_to_string_chars b) as Cb.
  destruct (stamp ka) as [ta|], (stamp kb) as [tb|]; cbn [append] in H.
  - apply (split_at_delimiter number_char) in H; try assumption; try reflexivity.
    destruct H as (Hab & _ & [= Ht]).
    apply number_to_string_inj in Hab, Ht. now subst.
  - rewrite append_empty in H. symmetry in H.
    exfalso. revert H. now apply (no_delimiter_inside number_char).
  - rewrite append_empty in H.
    exfalso. revert H. now apply (no_delimiter_inside number_char).
  - rewrite !append_empty in H. apply number_to_string_inj in H. now subst.
Qed.

Lemma image_src_tells_lane_and_stamp_witness :
  image_src (videoUrl None 3) (Some 0) = image_src (videoUrl None 3) None /\
  3 = 3 /\ stamp (Some 0) = stamp None.
Proof.
  split; [reflexivity|].
  apply (image_src_tells_lane_and_stamp None 3 3 (Some 0) None). reflexivity.
Defined.

(** ** Invariants of the handlers of a card *)

Lemma count_app {A} (f : A -> bool) l x :
  count f (l ++ [x]) = (count f l + (if f x then 1 else 0))%nat.
Proof.
  unfold count. rewrite filter_app, length_app. simpl. now destruct (f x).
Qed.

Lemma count_remove_nth {A} (f : A -> bool) i l x :
  nth_error l i = Some x ->
  (count f (remove_nth i l) + (if f x then 1 else 0) = count f l)%nat.
Proof.
  unfold count. revert i. induction l as [|y l IH]; intros [|i]; simpl;
    try discriminate.
  - intros [= ->]. destruct (f x); simpl; lia.
  - intros H. specialize (IH i H). destruct (f y); simpl; lia.
Qed.

Lemma card_run_invariant (p : CardProps) (P : CardState -> Prop) :
  (forall st ev, P st -> card_enabled st ev = true -> P (card_step p st ev)) ->
  forall evs st st', P st -> card_run p st evs = Some st' -> P st'.
Proof.
  intros Hstep. induction evs as [|ev evs IH]; intros st st' HP; simpl.
  - now intros [= <-].
  - destruct (card_enabled st ev) eqn:E; [|discriminate].
    apply IH. now apply Hstep.
Qed.



Lemma simulate_true_not_false p :
  is_simulate p true (simulate_request p false) = false /\
  is_simulate p false (simulate_request p true) = false.
Proof.
  unfold is_simulate, simulate_request, simulate_path. cbn [url].
  split; apply String.eqb_neq; intros H; apply append_cancel in H;
    cbn [append] in H; injection H as H; apply append_cancel in H; discriminate H.
Qed.

Lemma simulate_self p a : is_simulate p a (simulate_request p a) = true.
Proof. unfold is_simulate. apply String.eqb_refl. Qed.

Lemma simulate_not_upload p a f : is_simulate p a (upload_request p f) = false.
Proof.
  unfold is_simulate, simulate_request, upload_request. cbn [url].
  apply String.eqb_neq. intros H. apply append_cancel in H. discriminate H.
Qed.

Lemma simulate_not_force p a : is_simulate p a (force_request p) = false.
Proof.
  unfold is_simulate, simulate_request, force_request, simulate_path, force_path.
  cbn [url]. apply String.eqb_neq. intros H. apply append_cancel in H.
  cbn [append] in H. injection H as H. apply append_cancel in H. discriminate H.
Qed.

Lemma simulate_not_clear p a : is_simulate p a (clear_request p) = false.
Proof.
  unfold is_simulate, simulate_request, clear_request. cbn [url].
  apply String.eqb_neq. intros H. apply append_cancel in H. discriminate H.
Qed.

Lemma Forall_remove_nth {A} (P : A -> Prop) i l :
  Forall P l -> Forall P (remove_nth i l).
Proof.
  intros H. revert i. induction H as [|x l Hx Hl IH]; intros [|i]; simpl;
    try constructor; auto.
Qed.

Lemma count_ext_Forall {A} (f g : A -> bool) l :
  Forall (fun x => f x = g x) l -> count f l = count g l.
Proof.
  unfold count. induction 1 as [|x l Hx Hl IH]; simpl; [reflexivity|].
  rewrite Hx. destruct (g x); simpl; congruence.
Qed.

(** The timers a card sets: the stream is refreshed 1000 ms after an upload
    and 500 ms after a clear, a simulated emergency is switched off after
    5000 ms. *)
Lemma card_timers_delays (p : CardProps) (evs : list CardEvent) (st : CardState) :
  card_run p card_initial evs = Some st ->
  Forall (fun t => t = mkCardTimer refresh_stream 1000 \/
                   t = mkCardTimer refresh_stream 500 \/
                   t = mkCardTimer deactivate 5000) (card_timers st).
Proof.
  apply (card_run_invariant p
           (fun s => Forall (fun t => t = mkCardTimer refresh_stream 1000 \/
                                      t = mkCardTimer refresh_stream 500 \/
                                      t = mkCardTimer deactivate 5000)
                            (card_timers s)));
    [|constructor].
  clear evs st. intros st ev Hst _.
  destruct ev as [now|[f|]| | | |i o|i now]; simpl; try exact Hst.
  - destruct (nth_error (awaiting st) i) as [k|]; [|exact Hst].
    destruct k, o as [[]|reason]; simpl;
      unfold onUploadSuccess; try destruct (has_onUploadSuccess p); simpl;
      try exact Hst;
      (apply Forall_app; split; [exact Hst|]; constructor; [|constructor]; auto).
  - destruct (nth_error (card_timers st) i) as [t|]; [|exact Hst].
    destruct (action t); simpl; now apply Forall_remove_nth.
Qed.

Lemma simulate_accounting (p : CardProps) (evs : list CardEvent) (st : CardState) :
  card_run p card_initial evs = Some st ->
  count (is_simulate p true) (sent st)
  = (count is_after_simulate (awaiting st)
     + count is_simulation_failed (card_console st)
     + count is_deactivate (card_timers st)
     + count (is_simulate p false) (sent st))%nat.
Proof.
  apply (card_run_invariant p
           (fun s => count (is_simulate p true) (sent s)
                     = (count is_after_simulate (awaiting s)
                        + count is_simulation_failed (card_console s)
                        + count is_deactivate (card_timers s)
                        + count (is_simulate p false) (sent s))%nat));
    [|reflexivity].
  clear evs st. intros st ev Hst Hen.
  destruct (simulate_true_not_false p) as [Htf Hft].
  destruct ev as [now|[f|]| | | |i o|i now]; simpl in *;
    rewrite ?count_app, ?simulate_self, ?simulate_not_upload, ?simulate_not_force,
      ?simulate_not_clear, ?Hft; simpl; try lia; try exact Hst.
  - destruct (nth_error (awaiting st) i) as [k|] eqn:E; [|exact Hst].
    pose proof (count_remove_nth is_after_simulate i _ _ E) as Hrm.
    destruct k, o as [[]|reason]; simpl in *;
      unfold onUploadSuccess; try destruct (has_onUploadSuccess p); simpl;
      rewrite ?count_app; simpl; lia.
  - destruct (nth_error (card_timers st) i) as [t|] eqn:E; [|exact Hst].
    pose proof (count_remove_nth is_deactivate i _ _ E) as Hrm.
    unfold is_deactivate in Hrm at 2.
    destruct (action t); simpl;
      rewrite ?count_app, ?simulate_self, ?Htf; simpl; lia.
Qed.

(** X16. After any run of a card, every simulated emergency it has switched
    on is accounted for: the request is still in flight, or it failed and
    ['Simulation failed'] was logged, or the switch-off is pending on a timer
    of 5000 ms, or the switch-off has been sent.  So an emergency the
    server was asked to simulate, whatever it answered, is always switched
    off again, and one whose request failed never is.  And the delays are
    fixed: a pending switch-off waits 5000 ms, no other delay, and the only
    other timers of a card refresh the stream, after 1000 ms or 500 ms. *)
Theorem simulated_emergencies_are_switched_off (p : CardProps)
        (evs : list CardEvent) (st : CardState) :
  card_run p card_initial evs = Some st ->
  count (is_simulate p true) (sent st)
  = (count is_after_simulate (awaiting st)
     + count is_simulation_failed (card_console st)
     + count (fun t => is_deactivate t && (after_ms t =? 5000)%Z) (card_timers st)
     + count (is_simulate p false) (sent st))%nat /\
  Forall (fun t => t = mkCardTimer refresh_stream 1000 \/
                   t = mkCardTimer refresh_stream 500 \/
                   t = mkCardTimer deactivate 5000) (card_timers st).
Proof.
  intros Hrun.
  pose proof (card_timers_delays p evs st Hrun) as Hdelays.
  split; [|exact Hdelays].
  rewrite (simulate_accounting p evs st Hrun).
  f_equal. f_equal. apply count_ext_Forall.
  eapply Forall_impl; [|exact Hdelays].
  intros t [->|[->| ->]]; reflexivity.
Qed.

Lemma simulated_emergencies_are_switched_off_witness :
  let p := mkCardProps 2 None false in
  let st := card_step p (card_step p (card_step p card_initial SimulateClicked)
                                     (Settled 0 (Resolved false)))
                      SimulateClicked in
  card_timers (card_step p st (Settled 0 (Resolved true)))
  = [mkCardTimer deactivate 5000; mkCardTimer deactivate 5000] /\
  (count (is_simulate p true) (sent st)
   = (count is_after_simulate (awaiting st)
      + count is_simulation_failed (card_console st)
      + count (fun t => is_deactivate t && (after_ms t =? 5000)%Z) (card_timers st)
      + count (is_simulate p false) (sent st))%nat /\
   Forall (fun t => t = mkCardTimer refresh_stream 1000 \/
                    t = mkCardTimer refresh_stream 500 \/
                    t = mkCardTimer deactivate 5000) (card_timers st)).
Proof.
  split; [reflexivity|].
  apply (simulated_emergencies_are_switched_off (mkCardProps 2 None false)
           [SimulateClicked; Settled 0 (Resolved false); SimulateClicked]).
  reflexivity.
Defined.

Lemma sent_are_own_requests (p : CardProps) (evs : list CardEvent) (st : CardState) :
  card_run p card_initial evs = Some st -> Forall (own_request p) (sent st).
Proof.
  apply (card_run_invariant p (fun s => Forall (own_request p) (sent s)));
    [|constructor].
  clear evs st. intros st ev Hst _. unfold own_request in *.
  destruct ev as [now|[f|]| | | |i o|i now]; simpl; try exact Hst;
    try (apply Forall_app; split; [exact Hst|];
         constructor; [|constructor]; solve [eauto 6]).
  - destruct (nth_error (awaiting st) i) as [k|]; [|exact Hst].
    destruct k, o as [[]|reason]; simpl;
      unfold onUploadSuccess; try destruct (has_onUploadSuccess p); exact Hst.
  - destruct (nth_error (card_timers st) i) as [t|]; [|exact Hst].
    destruct (action t); simpl; [exact Hst|].
    apply Forall_app; split; [exact Hst|]. constructor; [|constructor]. auto.
Qed.

Lemma own_requests_tell_lane (p q : CardProps) (r r' : Request) :
  card_env p = card_env q ->
  own_request p r -> own_request q r' ->
  url r = url r' -> card_laneId p = card_laneId q.
Proof.
  intros Henv Hr Hr' H.
  assert (Hbase : card_apiBaseUrl q = card_apiBaseUrl p)
    by (unfold card_apiBaseUrl; now rewrite Henv).
  pose proof (number_to_string_chars (card_laneId p)) as Cp.
  pose proof (number_to_string_chars (card_laneId q)) as Cq.
  destruct Hr as [[f ->]|[->|[->|[->| ->]]]];
    destruct Hr' as [[f' ->]|[->|[->|[->| ->]]]];
    cbn [url upload_request simulate_request force_request clear_request] in H;
    rewrite Hbase in H; apply append_cancel in H;
    unfold upload_path, simulate_path, force_path, video_path in H;
    cbn [append] in H; try discriminate H; injection H as H;
    first [ now apply number_to_string_inj in H
          | apply (split_at_delimiter number_char) in H;
            [ destruct H as (H & _); now apply number_to_string_inj in H
            | assumption | assumption | reflexivity | reflexivity ] ].
Qed.

(** X17. The requests of a card address its own lane only: with the same
    API base, no request made by the card of one lane, in any run, has the
    address of a request made by the card of another lane, whatever the
    commands (upload, simulate, force, clear) and their order. *)
Theorem cards_command_their_own_lane (p q : CardProps)
        (evs evs' : list CardEvent) (st st' : CardState) (r r' : Request) :
  card_env p = card_env q ->
  card_run p card_initial evs = Some st ->
  card_run q card_initial evs' = Some st' ->
  In r (sent st) -> In r' (sent st') ->
  url r = url r' -> card_laneId p = card_laneId q.
Proof.
  intros Henv Hp Hq Hr Hr'.
  apply sent_are_own_requests in Hp, Hq.
  rewrite Forall_forall in Hp, Hq.
  apply (own_requests_tell_lane p q r r' Henv); auto.
Qed.

Lemma cards_command_their_own_lane_witness :
  let p := mkCardProps 2 None false in
  url (force_request p) = url (force_request p) /\ card_laneId p = card_laneId p.
Proof.
  split; [reflexivity|].
  apply (cards_command_their_own_lane
           (mkCardProps 2 None false) (mkCardProps 2 None false)
           [ForceClicked] [SimulateClicked; ForceClicked]
           (card_step (mkCardProps 2 None false) card_initial ForceClicked)
           (card_step (mkCardProps 2 None false)
              (card_step (mkCardProps 2 None false) card_initial SimulateClicked)
              ForceClicked)
           (force_request (mkCardProps 2 None false))
           (force_request (mkCardProps 2 None false)));
    try reflexivity.
  - simpl. now left.
  - simpl. right. now left.
Defined.
